(** * google-drive-upload-git-action: the upload decision flow of [main.go]

    A shallow embedding of [main.go]: the batch driver ([main]), the directory
    mirror ([createDriveDirectory]), the overwrite resolver ([uploadFile]) and
    the uploader ([uploadToDrive]), over an abstract Drive service and an
    abstract runner environment, together with the parts of the Go standard
    library the program calls ([strconv.ParseBool], [filepath.Dir],
    [filepath.Base], [filepath.Clean], [strings.Split], [strings.TrimSuffix]).

    Go strings are byte strings; they are modelled by [string] (a list of
    [ascii] bytes).  The process runs in a Linux container, so
    [os.PathSeparator] is the byte '/' and volume names are empty. *)

From Stdlib Require Import String Ascii List Bool Arith Lia.
Import ListNotations.
Open Scope list_scope.
Open Scope string_scope.

(** ** Go standard library *)

(** Go's [error] values are only ever printed or tested against [nil] by the
    program; they are carried as their message. *)
Definition error := string.

Module strconv.

(** [strconv.ParseBool]: the twelve accepted literals; any other string
    returns [false] together with a syntax error. *)
Definition ParseBool (str : string) : bool * option error :=
  if existsb (String.eqb str) ["1"; "t"; "T"; "true"; "TRUE"; "True"]
  then (true, None)
  else if existsb (String.eqb str) ["0"; "f"; "F"; "false"; "FALSE"; "False"]
  then (false, None)
  else (false, Some "invalid syntax").

End strconv.

Module strings.

(** [strings.Split(s, sep)] for a separator of one byte, which is what
    [string(os.PathSeparator)] is: the pieces between the occurrences of
    the separator, [Count(s, sep) + 1] of them.  [cur] is the piece being
    read. *)
Fixpoint splitFrom (sep : ascii) (cur s : string) : list string :=
  match s with
  | EmptyString => [cur]
  | String c s' =>
      if Ascii.eqb c sep then cur :: splitFrom sep "" s'
      else splitFrom sep (cur ++ String c "") s'
  end.

Definition Split (s : string) (sep : ascii) : list string :=
  splitFrom sep "" s.

(** [strings.TrimSuffix(s, suffix)]. *)
Definition TrimSuffix (s suffix : string) : string :=
  let n := String.length s in
  let k := String.length suffix in
  if (k <=? n)%nat && String.eqb (substring (n - k) k s) suffix
  then substring 0 (n - k) s
  else s.

End strings.

Module filepath.

Definition Separator : ascii := "/"%char.

Definition IsPathSeparator (c : ascii) : bool := Ascii.eqb c Separator.

(** [path[i]] is a separator; out of range counts as not one (the loops
    below never index out of range). *)
Definition sepAt (path : string) (i : nat) : bool :=
  match String.get i path with
  | Some c => IsPathSeparator c
  | None => false
  end.

(** The loop [for i >= 0 && !os.IsPathSeparator(path[i]) { i-- }] shared by
    [Dir] and [Base].  Go's [i] runs down to [-1]; the model carries
    [k = i + 1], so the result is the length of the prefix of [path] that
    ends with its last separator, and [0] when there is none. *)
Fixpoint scanBack (path : string) (k : nat) : nat :=
  match k with
  | 0 => 0
  | S i => if sepAt path i then k else scanBack path i
  end.

(** [lazybuf] of [Clean] is the output written so far: [out.w] is its
    length and [out.index(i)] its [i]-th byte. *)

(** The [..] case: [out.w--] followed by
    [for out.w > dotdot && !os.IsPathSeparator(out.index(out.w)) { out.w-- }],
    entered with [w] already decremented. *)
Fixpoint backtrack (buf : string) (dotdot w : nat) : nat :=
  match w with
  | 0 => 0
  | S w' =>
      if (dotdot <? w)%nat && negb (sepAt buf w) then backtrack buf dotdot w'
      else w
  end.

(** [r == n || os.IsPathSeparator(path[r])] on the unread part of the path. *)
Definition atEndOrSep (rest : string) : bool :=
  match rest with
  | EmptyString => true
  | String c _ => IsPathSeparator c
  end.

(** The loop that copies a real path element:
    [for ; r < n && !os.IsPathSeparator(path[r]); r++ { out.append(path[r]) }].
    Returns the element and the unread rest. *)
Fixpoint copyElement (rest : string) : string * string :=
  match rest with
  | EmptyString => ("", "")
  | String c rest' =>
      if IsPathSeparator c then ("", rest)
      else let '(e, r) := copyElement rest' in (String c e, r)
  end.

(** The main loop [for r < n] of [Clean].  [rest] is [path[r:]], [buf] the
    output, and every turn reads at least one byte, so [length rest] turns
    are enough ([cleanLoop_fuel] below). *)
Fixpoint cleanLoop (fuel : nat) (rooted : bool) (rest buf : string)
         (dotdot : nat) : string :=
  match fuel with
  | 0 => buf
  | S fuel' =>
      match rest with
      | EmptyString => buf
      | String c r1 =>
          if IsPathSeparator c then
            (* empty path element *)
            cleanLoop fuel' rooted r1 buf dotdot
          else if Ascii.eqb c "." && atEndOrSep r1 then
            (* . element *)
            cleanLoop fuel' rooted r1 buf dotdot
          else if Ascii.eqb c "."
                  && match r1 with
                     | String d r2 => Ascii.eqb d "." && atEndOrSep r2
                     | EmptyString => false
                     end then
            (* .. element: remove to last separator *)
            let r2 := match r1 with String _ r2 => r2 | EmptyString => "" end in
            if (dotdot <? String.length buf)%nat then
              (* can backtrack *)
              let w := backtrack buf dotdot (String.length buf - 1) in
              cleanLoop fuel' rooted r2 (substring 0 w buf) dotdot
            else if negb rooted then
              (* cannot backtrack, but not rooted, so append .. element *)
              let buf1 := if (0 <? String.length buf)%nat
                          then buf ++ String Separator "" else buf in
              let buf2 := buf1 ++ ".." in
              cleanLoop fuel' rooted r2 buf2 (String.length buf2)
            else cleanLoop fuel' rooted r2 buf dotdot
          else
            (* real path element: add slash if needed, copy element *)
            let buf1 :=
              if (rooted && negb (String.length buf =? 1)%nat)
                 || (negb rooted && negb (String.length buf =? 0)%nat)
              then buf ++ String Separator "" else buf in
            let '(e, r) := copyElement rest in
            cleanLoop fuel' rooted r (buf1 ++ e) dotdot
      end
  end.

(** [filepath.Clean] (Unix: no volume name, [FromSlash] is the identity). *)
Definition Clean (path : string) : string :=
  match path with
  | EmptyString => "."
  | String c _ =>
      let rooted := IsPathSeparator c in
      let buf :=
        if rooted
        then cleanLoop (String.length path) true
               (substring 1 (String.length path - 1) path)
               (String Separator "") 1
        else cleanLoop (String.length path) false path "" 0 in
      (* Turn empty string into "." *)
      if (String.length buf =? 0)%nat then "." else buf
  end.

(** [filepath.Dir]: all but the last element of the path, cleaned. *)
Definition Dir (path : string) : string :=
  let k := scanBack path (String.length path) in
  Clean (substring 0 k path).

(** The loop of [Base] that strips trailing slashes:
    [for len(path) > 0 && os.IsPathSeparator(path[len(path)-1])]. *)
Fixpoint stripTrailing (n : nat) (path : string) : string :=
  match n with
  | 0 => path
  | S m =>
      if (0 <? String.length path)%nat && sepAt path (String.length path - 1)
      then stripTrailing m (substring 0 (String.length path - 1) path)
      else path
  end.

(** [filepath.Base]: the last element of the path. *)
Definition Base (path : string) : string :=
  if String.eqb path "" then "."
  else
    let path := stripTrailing (String.length path) path in
    let k := scanBack path (String.length path) in
    let path :=
      if (0 <? k)%nat then substring k (String.length path - k) path else path in
    if String.eqb path "" then String Separator "" else path.

End filepath.

(** ** The Drive service and the runner environment *)

Module drive.

(** The fields of [drive.File] the program reads or writes. *)
Record File : Type := {
  Id : string;
  Name : string;
  MimeType : string;
  Parents : list string
}.

(** The calls the program issues, as they reach the service.  [media] is
    the content of the opened local file; a folder is created with none. *)
Inductive Call : Type :=
| FilesList (q : string)
| FilesCreate (f : File) (media : option string)
| FilesUpdate (fileId : string) (f : File) (addParents : string)
              (media : string).

(** The remote service is a black box: a state and the three operations,
    each of which can fail.  [list_do] is
    [Files.List().Fields(..).Q(q). .. .Do()], [create_do] is
    [Files.Create(f)[.Media(file)]. .. .Do()], [update_do] is
    [Files.Update(id, f).AddParents(p).Media(file). .. .Do()]. *)
Record Service (St : Type) : Type := {
  list_do : string -> St -> error + list File;
  create_do : File -> option string -> St -> error + (File * St);
  update_do : string -> File -> string -> string -> St -> error + (File * St)
}.

Arguments list_do {St} _ _ _.
Arguments create_do {St} _ _ _ _.
Arguments update_do {St} _ _ _ _ _ _.

(** An upload moves file content: a create with media, or an update. *)
Definition isUpload (c : Call) : bool :=
  match c with
  | FilesList _ => false
  | FilesCreate _ media => match media with Some _ => true | None => false end
  | FilesUpdate _ _ _ _ => true
  end.

(** A create or update call, as opposed to a lookup. *)
Definition isWrite (c : Call) : bool :=
  match c with
  | FilesList _ => false
  | _ => true
  end.

End drive.

Import drive.

(** What the process reads from its surroundings: the action inputs
    ([githubactions.GetInput]), the local file system ([filepath.Glob],
    [os.Lstat] reduced to [IsDir], [os.Open] reduced to the content), and the
    credential helpers. *)
Record Env : Type := {
  GetInput : string -> string;
  Glob : string -> list string * option error;
  Lstat : string -> error + bool;
  Open : string -> error + string;
  DecodeString : string -> error + string;
  JWTConfigFromJSON : string -> string -> option error
}.

(** The reasons for which the process exits with a non-zero status
    ([githubactions.Fatalf] and [log.Fatalf] both end in [os.Exit(1)]). *)
Inductive Fatal : Type :=
| MissingInput (inputName : string)
| InvalidPattern (err : error)
| NoFileFound (pattern : string)
| Base64Failed (err : error)
| JWTFailed (err : error)
| NoTargetName
| LstatFailed (filename : string) (err : error)
| OpenFailed (filename : string) (err : error)
| UploadFailed (err : error)
| CheckFolderFailed (err : error)
| CreateFolderFailed (err : error)
| RetrieveFilesFailed (err : error).

(** What the process writes to its standard output, one constructor per
    print site of [main.go]. *)
Inductive Output : Type :=
| OutFiles (files : list string)
| OutWarning (msg : string)
| OutLine (msg : string)
| OutAddMask (secret : string)
| OutProcessing (file : string)
| OutMirroring (directoryStructure : list string)
| OutChecking (name : string)
| OutFoundFolder (name : string)
| OutCreatingFolder (name : string)
| OutTargetName (name : string)
| OutFilesCount (n : nat)
| OutFoundInFolder
| OutNoSimilar
| OutOverwriting (name id : string)
| OutIsDirectory (filename : string)
| OutDebug (msg : string).

(** The state the process acts on: the remote service, and the record of the
    calls made and of the lines printed, oldest first. *)
Record World (St : Type) : Type := {
  remote : St;
  calls : list Call;
  output : list Output
}.

Arguments remote {St} _.
Arguments calls {St} _.
Arguments output {St} _.

(** ** Inputs *)

Definition scope := "https://www.googleapis.com/auth/drive.file".
Definition filenameInput := "filename".
Definition nameInput := "name".
Definition folderIdInput := "folderId".
Definition credentialsInput := "credentials".
Definition mimeTypeInput := "mimeType".
Definition useCompleteSourceName := "useCompleteSourceFilenameAsName".
Definition mirrorDirectoryStructure := "mirrorDirectoryStructure".
Definition namePrefixInput := "namePrefix".

(** The local variables of [main] that the per-file loop reads. *)
Record Config : Type := {
  files : list string;
  overwriteFlag : bool;
  name : string;
  folderId : string;
  mimeType : string;
  useCompleteSourceFilenameAsNameFlag : bool;
  mirrorDirectoryStructureFlag : bool;
  filenamePrefix : string
}.

(** ** The program *)

Section Program.

Context {St : Type}.
Variable env : Env.
Variable svc : Service St.

(** A computation either exits the process or returns a value; the world
    it leaves behind is kept in both cases. *)
Definition M (A : Type) : Type := World St -> (Fatal + A) * World St.

Definition ret {A} (a : A) : M A := fun w => (inr a, w).

Definition bind {A B} (m : M A) (k : A -> M B) : M B :=
  fun w =>
    match m w with
    | (inl e, w') => (inl e, w')
    | (inr a, w') => k a w'
    end.

Definition fatal {A} (e : Fatal) : M A := fun w => (inl e, w).

Definition say (o : Output) : M unit :=
  fun w => (inr tt, {| remote := remote w; calls := calls w;
                       output := output w ++ [o] |}).

Definition record (c : Call) (st : St) (w : World St) : World St :=
  {| remote := st; calls := calls w ++ [c]; output := output w |}.

(** The three service calls: the result and error of [Do()] are handed
    back to the caller, as in Go. *)
Definition filesList (q : string) : M (error + list File) :=
  fun w => (inr (list_do svc q (remote w)), record (FilesList q) (remote w) w).

Definition filesCreate (f : File) (media : option string) : M (error + File) :=
  fun w =>
    match create_do svc f media (remote w) with
    | inl err => (inr (inl err), record (FilesCreate f media) (remote w) w)
    | inr (d, st) => (inr (inr d), record (FilesCreate f media) st w)
    end.

Definition filesUpdate (fileId : string) (f : File) (addParents media : string)
  : M (error + File) :=
  fun w =>
    match update_do svc fileId f addParents media (remote w) with
    | inl err =>
        (inr (inl err), record (FilesUpdate fileId f addParents media) (remote w) w)
    | inr (d, st) =>
        (inr (inr d), record (FilesUpdate fileId f addParents media) st w)
    end.

End Program.

Arguments ret {St A} _ _.
Arguments fatal {St A} _ _.

Declare Scope prog_scope.
Delimit Scope prog_scope with prog.
Notation "x <- m ;; k" := (bind m (fun x => k))
  (at level 61, m at next level, right associativity) : prog_scope.
Notation "m ;; k" := (bind m (fun _ => k))
  (at level 61, right associativity) : prog_scope.
Open Scope prog_scope.

Section Action.

Context {St : Type}.
Variable env : Env.
Variable svc : Service St.

Local Abbreviation M := (@M St).

(** [missingInput]. *)
Definition missingInput {A} (inputName : string) : M A :=
  fatal (MissingInput inputName).

(** *** Uploader: [uploadToDrive] *)
Definition uploadToDrive (filename folderId : string)
           (driveFile : option File) (name mimeType : string) : M unit :=
  match Lstat env filename with
  | inl err => fatal (LstatFailed filename err)
  | inr isDir =>
      if isDir then say (OutIsDirectory filename)
      else
        match Open env filename with
        | inl err => fatal (OpenFailed filename err)
        | inr file =>
            r <- match driveFile with
                 | Some d =>
                     filesUpdate svc (Id d)
                       {| Id := ""; Name := name; MimeType := mimeType;
                          Parents := [] |}
                       folderId file
                 | None =>
                     filesCreate svc
                       {| Id := ""; Name := name; MimeType := mimeType;
                          Parents := [folderId] |}
                       (Some file)
                 end ;;
            match r with
            | inl err => fatal (UploadFailed err)
            | inr _ => say (OutDebug "Uploaded/Updated file.")
            end
        end
  end.

(** *** Directory mirror: [createDriveDirectory] *)

(** The inner loop [for _, p := range i.Parents] on the pair
    [(foundFolders, nextFolderId)]. *)
Fixpoint scanParents (folderId name : string) (i : File) (ps : list string)
         (acc : nat * string) : M (nat * string) :=
  match ps with
  | [] => ret acc
  | p :: ps' =>
      if String.eqb p folderId then
        say (OutFoundFolder name) ;;
        scanParents folderId name i ps' (S (fst acc), Id i)
      else scanParents folderId name i ps' acc
  end.

(** The outer loop [for _, i := range r.Files]. *)
Fixpoint scanFolders (folderId name : string) (fs : list File)
         (acc : nat * string) : M (nat * string) :=
  match fs with
  | [] => ret acc
  | i :: fs' =>
      acc' <- scanParents folderId name i (Parents i) acc ;;
      scanFolders folderId name fs' acc'
  end.

Definition createDriveDirectory (folderId name : string) : M string :=
  say (OutChecking name) ;;
  r <- filesList svc
         ("name='" ++ name ++ "'" ++ " and mimeType='application/vnd.google-apps.folder'") ;;
  match r with
  | inl err => fatal (CheckFolderFailed err)
  | inr rFiles =>
      acc <- scanFolders folderId name rFiles (0, "") ;;
      let '(foundFolders, nextFolderId) := acc in
      if (foundFolders =? 0)%nat then
        say (OutCreatingFolder name) ;;
        d <- filesCreate svc
               {| Id := ""; Name := name;
                  MimeType := "application/vnd.google-apps.folder";
                  Parents := [folderId] |}
               None ;;
        match d with
        | inl err => fatal (CreateFolderFailed err)
        | inr d => ret (Id d)
        end
      else ret nextFolderId
  end.

(** *** Overwrite resolver: [uploadFile] *)

(** The inner loop [for _, p := range i.Parents] with its [break]; the
    result is [found]. *)
Fixpoint scanExpected (folderId : string) (ps : list string) : M bool :=
  match ps with
  | [] => ret false
  | p :: ps' =>
      if String.eqb p folderId then say OutFoundInFolder ;; ret true
      else scanExpected folderId ps'
  end.

(** The outer loop [for _, i := range r.Files] on [currentFile]. *)
Fixpoint findCurrentFile (name folderId : string) (fs : list File)
         (currentFile : option File) : M (option File) :=
  match fs with
  | [] => ret currentFile
  | i :: fs' =>
      if String.eqb name (Name i) then
        found <- scanExpected folderId (Parents i) ;;
        if found then ret (Some i)
        else findCurrentFile name folderId fs' (Some i)
      else findCurrentFile name folderId fs' currentFile
  end.

Definition uploadFile (filename folderId name mimeType : string)
           (overwriteFlag : bool) : M unit :=
  say (OutTargetName name) ;;
  if overwriteFlag then
    r <- filesList svc ("name='" ++ name ++ "'") ;;
    match r with
    | inl err => fatal (RetrieveFilesFailed err)
    | inr rFiles =>
        say (OutFilesCount (List.length rFiles)) ;;
        currentFile <- findCurrentFile name folderId rFiles None ;;
        match currentFile with
        | None =>
            say OutNoSimilar ;;
            uploadToDrive filename folderId None name mimeType
        | Some f =>
            say (OutOverwriting (Name f) (Id f)) ;;
            uploadToDrive filename folderId (Some f) name mimeType
        end
    end
  else uploadToDrive filename folderId None name mimeType.

(** *** Batch driver: [main] *)

(** Lines 92-99, 112-119 and 121-128: the three boolean inputs. *)
Definition readOverwriteFlag : M bool :=
  let overwrite := GetInput env "overwrite" in
  if String.eqb overwrite "" then
    say (OutWarning "Overwrite is disabled.") ;; ret false
  else ret (fst (strconv.ParseBool overwrite)).

Definition readUseCompleteSourceFilenameAsNameFlag : M bool :=
  let useCompleteSourceFilenameAsName := GetInput env useCompleteSourceName in
  if String.eqb useCompleteSourceFilenameAsName "" then
    say (OutLine "useCompleteSourceFilenameAsName is disabled.") ;; ret false
  else ret (fst (strconv.ParseBool useCompleteSourceFilenameAsName)).

Definition readMirrorDirectoryStructureFlag : M bool :=
  let mirrorDirectoryStructure := GetInput env mirrorDirectoryStructure in
  if String.eqb mirrorDirectoryStructure "" then
    say (OutLine "mirrorDirectoryStructure is disabled.") ;; ret false
  else ret (fst (strconv.ParseBool mirrorDirectoryStructure)).

(** Lines 77-162: everything [main] does before the loop.  [drive.New] is
    handed a non-nil client and returns no error; the service it returns is
    the parameter [svc]. *)
Definition readInputs : M Config :=
  let filename := GetInput env filenameInput in
  (if String.eqb filename "" then missingInput filenameInput else ret tt) ;;
  let '(files, err) := Glob env filename in
  say (OutFiles files) ;;
  match err with
  | Some err => fatal (InvalidPattern err)
  | None =>
  (if (List.length files =? 0)%nat then fatal (NoFileFound filename) else ret tt) ;;
  overwriteFlag <- readOverwriteFlag ;;
  let name := GetInput env nameInput in
  let folderId := GetInput env folderIdInput in
  (if String.eqb folderId "" then missingInput folderIdInput else ret tt) ;;
  let mimeType := GetInput env mimeTypeInput in
  useCompleteSourceFilenameAsNameFlag <- readUseCompleteSourceFilenameAsNameFlag ;;
  mirrorDirectoryStructureFlag <- readMirrorDirectoryStructureFlag ;;
  let filenamePrefix := GetInput env namePrefixInput in
  let credentials := GetInput env credentialsInput in
  (if String.eqb credentials "" then missingInput credentialsInput else ret tt) ;;
  say (OutAddMask credentials) ;;
  match DecodeString env credentials with
  | inl err => fatal (Base64Failed err)
  | inr decodedCredentials =>
  let creds := strings.TrimSuffix decodedCredentials (String "010"%char "") in
  say (OutAddMask creds) ;;
  match JWTConfigFromJSON env creds scope with
  | Some err => fatal (JWTFailed err)
  | None =>
      ret {| files := files; overwriteFlag := overwriteFlag; name := name;
             folderId := folderId; mimeType := mimeType;
             useCompleteSourceFilenameAsNameFlag :=
               useCompleteSourceFilenameAsNameFlag;
             mirrorDirectoryStructureFlag := mirrorDirectoryStructureFlag;
             filenamePrefix := filenamePrefix |}
  end end end.

(** Line 164. *)
Definition useSourceFilename (cfg : Config) : bool :=
  (1 <? List.length (files cfg))%nat.

(** Lines 175-177: the loop over the path segments, on [folderId]. *)
Fixpoint mirrorLoop (directoryStructure : list string) (folderId : string)
  : M string :=
  match directoryStructure with
  | [] => ret folderId
  | dir :: rest =>
      folderId' <- createDriveDirectory folderId dir ;;
      mirrorLoop rest folderId'
  end.

(** Lines 172-178. *)
Definition mirrorFile (cfg : Config) (file folderId : string) : M string :=
  if mirrorDirectoryStructureFlag cfg then
    let directoryStructure :=
      strings.Split (filepath.Dir file) filepath.Separator in
    say (OutMirroring directoryStructure) ;;
    mirrorLoop directoryStructure folderId
  else ret folderId.

(** Lines 179-185: the first three naming rules. *)
Definition chooseTargetName (cfg : Config) (file : string) : string :=
  if useCompleteSourceFilenameAsNameFlag cfg then file
  else if useSourceFilename cfg || String.eqb (name cfg) ""
  then filepath.Base file
  else name cfg.

(** Lines 186-190: the emptiness check and the prefix. *)
Definition checkTargetName (cfg : Config) (targetName : string)
  : Fatal + string :=
  if String.eqb targetName "" then inl NoTargetName
  else if negb (String.eqb (filenamePrefix cfg) "")
  then inr (filenamePrefix cfg ++ targetName)
  else inr targetName.

Definition resolveTargetName (cfg : Config) (file : string) : Fatal + string :=
  checkTargetName cfg (chooseTargetName cfg file).

(** Lines 170-191: the body of the loop over the matched files, run with
    the working value of [folderId]; it returns the value it leaves in that
    variable. *)
Definition processFrom (cfg : Config) (folderId file : string) : M string :=
  say (OutProcessing file) ;;
  folderId <- mirrorFile cfg file folderId ;;
  match resolveTargetName cfg file with
  | inl e => fatal e
  | inr targetName =>
      uploadFile file folderId targetName (mimeType cfg) (overwriteFlag cfg) ;;
      ret folderId
  end.

(** Lines 169-191: one turn of the loop.  The variable [folderId] of
    [main] outlives the turn, so the turn receives its current value; line
    169 assigns [originalFolderId] to it before anything reads it. *)
Definition processFile (cfg : Config) (originalFolderId : string)
           (folderId file : string) : M string :=
  let folderId := originalFolderId in
  processFrom cfg folderId file.

(** Line 168: [for _, file := range files]. *)
Fixpoint filesLoop (cfg : Config) (originalFolderId : string)
         (fs : list string) (folderId : string) : M unit :=
  match fs with
  | [] => ret tt
  | file :: rest =>
      folderId' <- processFile cfg originalFolderId folderId file ;;
      filesLoop cfg originalFolderId rest folderId'
  end.

(** Lines 164-192. *)
Definition uploadAll (cfg : Config) : M unit :=
  let originalFolderId := folderId cfg in
  filesLoop cfg originalFolderId (files cfg) (folderId cfg).

Definition main : M unit :=
  cfg <- readInputs ;;
  uploadAll cfg.

End Action.

(** ** A concrete service and environment, for running the program *)

Module memdrive.

(** An in-memory instance of the remote service (an object store with list,
    create and update; the real one is external).  The store is the list of
    remote objects in the order the service lists them; [list_do] answers
    the two query shapes the program builds, [create_do] appends the object
    under a fresh id, [update_do] patches name and mime type and adds the
    parent. *)
Definition St := list File.

Definition matches (q : string) (f : File) : bool :=
  String.eqb q ("name='" ++ Name f ++ "'")
  || String.eqb q ("name='" ++ Name f ++ "' and mimeType='" ++ MimeType f ++ "'").

Definition freshId (st : St) : string :=
  String.concat "" ("new" :: repeat "+" (List.length st)).

Definition patch (fileId : string) (f : File) (addParents : string) (g : File)
  : File :=
  if String.eqb (Id g) fileId then
    {| Id := Id g; Name := Name f; MimeType := MimeType f;
       Parents := if existsb (String.eqb addParents) (Parents g)
                  then Parents g else (Parents g ++ [addParents])%list |}
  else g.

Definition service : Service St := {|
  list_do := fun q st => inr (filter (matches q) st);
  create_do := fun f _ st =>
    let d := {| Id := freshId st; Name := Name f; MimeType := MimeType f;
                Parents := Parents f |} in
    inr (d, (st ++ [d])%list);
  update_do := fun fileId f addParents _ st =>
    match find (fun g => String.eqb (Id g) fileId) st with
    | Some g => inr (patch fileId f addParents g, map (patch fileId f addParents) st)
    | None => inl "File not found"
    end
|}.

(** A runner whose inputs are an association list, whose glob yields
    [matched], and whose local paths are regular files holding ["data"]
    except the listed directories. *)
Definition lookup (inputs : list (string * string)) (k : string) : string :=
  match find (fun kv => String.eqb (fst kv) k) inputs with
  | Some kv => snd kv
  | None => ""
  end.

Definition runner (inputs : list (string * string)) (matched dirs : list string)
  : Env := {|
  GetInput := lookup inputs;
  Glob := fun _ => (matched, None);
  Lstat := fun p => inr (existsb (String.eqb p) dirs);
  Open := fun _ => inr "data";
  DecodeString := fun s => inr s;
  JWTConfigFromJSON := fun _ _ => None
|}.

Definition start (st : St) : World St :=
  {| remote := st; calls := []; output := [] |}.

End memdrive.

Definition folder (id name parent : string) : File :=
  {| Id := id; Name := name; MimeType := "application/vnd.google-apps.folder";
     Parents := [parent] |}.

(** ** Vocabulary of the properties *)

(** The target folder id is a member of the object's parent set. *)
Definition inFolder (folderId : string) (i : File) : bool :=
  existsb (fun p => String.eqb p folderId) (Parents i).

Definition sameName (name : string) (i : File) : bool :=
  String.eqb name (Name i).

(** The listed objects that lie in the folder, in listing order. *)
Definition foldersUnder (folderId : string) (fs : list File) : list File :=
  filter (inFolder folderId) fs.

(** The loops of [createDriveDirectory] without their printing. *)
Definition countParents (folderId : string) (i : File) (ps : list string)
           (acc : nat * string) : nat * string :=
  fold_left (fun acc p => if String.eqb p folderId then (S (fst acc), Id i) else acc)
            ps acc.

Definition countFolders (folderId : string) (fs : list File)
           (acc : nat * string) : nat * string :=
  fold_left (fun acc i => countParents folderId i (Parents i) acc) fs acc.

(** The update target the overwrite loop leaves in [currentFile]: the first
    listed object of that name lying in the target folder when there is one,
    otherwise the last listed object of that name, otherwise none. *)
Definition overwriteTarget (name folderId : string) (fs : list File)
  : option File :=
  match find (fun i => sameName name i && inFolder folderId i) fs with
  | Some i => Some i
  | None => last (map Some (filter (sameName name) fs)) None
  end.

(** The call [uploadToDrive] issues for a regular file. *)
Definition uploadCall (target : option File) (folderId name mimeType media : string)
  : Call :=
  match target with
  | Some d =>
      FilesUpdate (Id d)
        {| Id := ""; Name := name; MimeType := mimeType; Parents := [] |}
        folderId media
  | None =>
      FilesCreate
        {| Id := ""; Name := name; MimeType := mimeType; Parents := [folderId] |}
        (Some media)
  end.

(** The name after all four naming rules, the prefix applied without the
    emptiness check that [main] interposes. *)
Definition nameAfterAllRules (cfg : Config) (file : string) : string :=
  if negb (String.eqb (filenamePrefix cfg) "")
  then filenamePrefix cfg ++ chooseTargetName cfg file
  else chooseTargetName cfg file.

(** The path contains no directory separator. *)
Definition noSeparator (path : string) : Prop :=
  forall i c, String.get i path = Some c -> filepath.IsPathSeparator c = false.

(** The lookup [createDriveDirectory] sends for a folder name. *)
Definition folderQuery (name : string) : string :=
  "name='" ++ name ++ "' and mimeType='application/vnd.google-apps.folder'".

(** The folder [createDriveDirectory] asks the service to create. *)
Definition newFolder (folderId name : string) : File :=
  {| Id := ""; Name := name; MimeType := "application/vnd.google-apps.folder";
     Parents := [folderId] |}.

(** The world after some more lines were printed. *)
Definition printed {St} (w : World St) (out : list Output) : World St :=
  {| remote := remote w; calls := calls w; output := output w ++ out |}.

(** The world after [createDriveDirectory] found the folder: one lookup
    made, the service untouched. *)
Definition afterLookup {St} (w : World St) (name : string) (out : list Output)
  : World St :=
  {| remote := remote w; calls := (calls w ++ [FilesList (folderQuery name)])%list;
     output := out |}.

(** The result of [createDriveDirectory] when no listed folder lies in
    [folderId]: the outcome of the create call decides. *)
Definition afterCreate {St} (svc : Service St) (w : World St)
           (folderId name : string) (out : list Output)
  : (Fatal + string) * World St :=
  let cs := (calls w ++ [FilesList (folderQuery name);
                         FilesCreate (newFolder folderId name) None])%list in
  match create_do svc (newFolder folderId name) None (remote w) with
  | inr (d, st) => (inr (Id d), {| remote := st; calls := cs; output := out |})
  | inl err =>
      (inl (CreateFolderFailed err),
       {| remote := remote w; calls := cs; output := out |})
  end.

Definition twoFolders : list File :=
  [folder "F1" "a" "R"; folder "F2" "a" "R"].

(** The lookup [uploadFile] sends for a target name. *)
Definition nameQuery (name : string) : string := "name='" ++ name ++ "'".

(** No listed object has both the name and the folder. *)
Definition noneInFolder (name folderId : string) (fs : list File) : Prop :=
  forall g, In g fs -> sameName name g && inFolder folderId g = false.

(** A remote object named [x.txt] that lies in folder [OTHER] only. *)
Definition strayFile : File :=
  {| Id := "X"; Name := "x.txt"; MimeType := "text/plain"; Parents := ["OTHER"] |}.

(** A remote object named [x.txt] that lies in the root folder [R]. *)
Definition rootFile : File :=
  {| Id := "X"; Name := "x.txt"; MimeType := "text/plain"; Parents := ["R"] |}.

Definition plainRunner : Env := memdrive.runner [] [] [].

(** A configuration that mirrors directories under root [R]. *)
Definition mirrorConfig (matched : list string) : Config :=
  {| files := matched; overwriteFlag := false; name := ""; folderId := "R";
     mimeType := ""; useCompleteSourceFilenameAsNameFlag := false;
     mirrorDirectoryStructureFlag := true; filenamePrefix := "" |}.

(** Two matched files, a configured name, and the given full-source-name
    flag and prefix. *)
Definition pairConfig (useComplete : bool) (prefix : string) : Config :=
  {| files := ["d/a.txt"; "d/b.txt"]; overwriteFlag := false; name := "Report";
     folderId := "R"; mimeType := "";
     useCompleteSourceFilenameAsNameFlag := useComplete;
     mirrorDirectoryStructureFlag := false; filenamePrefix := prefix |}.

(** The exits a mirror step can cause. *)
Definition mirrorFailure (e : Fatal) : Prop :=
  exists err, e = CheckFolderFailed err \/ e = CreateFolderFailed err.

(** The upload calls among the calls made. *)
Definition uploads (cs : list Call) : list Call := filter isUpload cs.

(** The create and update calls among the calls made. *)
Definition writes (cs : list Call) : list Call := filter isWrite cs.

(** The full-source-name flag is set and the matched path is empty: the only
    way for the first three naming rules to yield an empty name. *)
Definition emptyNameConfig : Config :=
  {| files := [""; "b.txt"]; overwriteFlag := false; name := "Report";
     folderId := "R"; mimeType := "";
     useCompleteSourceFilenameAsNameFlag := true;
     mirrorDirectoryStructureFlag := false; filenamePrefix := "" |}.

(** A runner whose three boolean inputs are all [yes]. *)
Definition yesRunner : Env :=
  memdrive.runner
    [("filename", "x.txt"); ("folderId", "R"); ("credentials", "e30=");
     ("overwrite", "yes"); ("useCompleteSourceFilenameAsName", "yes");
     ("mirrorDirectoryStructure", "yes")]
    ["x.txt"] [].

(** A runner where the glob matched the directory [logs] and the regular
    file [b.txt], and the configuration for it, with overwriting on. *)
Definition dirRunner : Env := memdrive.runner [] ["logs"; "b.txt"] ["logs"].

Definition dirConfig : Config :=
  {| files := ["logs"; "b.txt"]; overwriteFlag := true; name := "";
     folderId := "R"; mimeType := "";
     useCompleteSourceFilenameAsNameFlag := false;
     mirrorDirectoryStructureFlag := false; filenamePrefix := "" |}.

(** ** Further vocabulary *)

(** The literals [strconv.ParseBool] reads as [true]. *)
Definition trueLiterals : list string :=
  ["1"; "t"; "T"; "true"; "TRUE"; "True"].

(** The value a boolean input stands for: lines 94-99, 114-119, 123-128. *)
Definition flagOf (input : string) : bool :=
  if String.eqb input "" then false else fst (strconv.ParseBool input).

(** The exits of [main] before its loop. *)
Definition inputFailure (e : Fatal) : Prop :=
  match e with
  | MissingInput _ | InvalidPattern _ | NoFileFound _
  | Base64Failed _ | JWTFailed _ => True
  | _ => False
  end.

(** A runner with the given inputs, a glob matching [x.txt] and credentials
    that decode to a document followed by a newline. *)
Definition inputRunner (inputs : list (string * string)) : Env :=
  {| GetInput := memdrive.lookup inputs;
     Glob := fun _ => (["x.txt"], None);
     Lstat := fun _ => inr false;
     Open := fun _ => inr "data";
     DecodeString := fun s => inr (s ++ String "010"%char "");
     JWTConfigFromJSON := fun _ _ => None |}.

Definition fullInputs : list (string * string) :=
  [("filename", "x.txt"); ("folderId", "R"); ("credentials", "e30=");
   ("overwrite", "TRUE"); ("name", "Report")].

(** The configuration [readInputs] builds from [fullInputs]. *)
Definition fullConfig : Config :=
  {| files := ["x.txt"]; overwriteFlag := true; name := "Report";
     folderId := "R"; mimeType := "";
     useCompleteSourceFilenameAsNameFlag := false;
     mirrorDirectoryStructureFlag := false; filenamePrefix := "" |}.

(** The calls [uploadToDrive] makes, by what the local path is. *)
Definition uploadCalls (env : Env) (filename : string) (target : option File)
           (folderId name mimeType : string) : list Call :=
  match Lstat env filename, Open env filename with
  | inr false, inr media => [uploadCall target folderId name mimeType media]
  | _, _ => []
  end.

(** A service that is out of reach: every call fails. *)
Definition offline : Service memdrive.St :=
  {| list_do := fun _ _ => inl "offline";
     create_do := fun _ _ _ => inl "offline";
     update_do := fun _ _ _ _ _ => inl "offline" |}.

(** A runner whose local paths do not exist. *)
Definition emptyDisk : Env :=
  {| GetInput := fun _ => "";
     Glob := fun _ => ([], None);
     Lstat := fun _ => inl "no such file or directory";
     Open := fun _ => inl "no such file or directory";
     DecodeString := fun s => inr s;
     JWTConfigFromJSON := fun _ _ => None |}.



(** One matched file and a configured name, with the given prefix. *)
Definition singleConfig (prefix : string) : Config :=
  {| files := ["d/report.pdf"]; overwriteFlag := false; name := "Report";
     folderId := "R"; mimeType := "";
     useCompleteSourceFilenameAsNameFlag := false;
     mirrorDirectoryStructureFlag := false; filenamePrefix := prefix |}.

(** The call is a lookup, or it uploads into the folder: a create with
    content whose only parent is the folder, or an update that adds the
    folder as parent. *)
Definition aimedAt (folderId : string) (c : Call) : Prop :=
  match c with
  | FilesList _ => True
  | FilesCreate f media => Parents f = [folderId] /\ media <> None
  | FilesUpdate _ _ addParents _ => addParents = folderId
  end.

(** The create call of a plain upload of [file] holding [media]. *)
Definition plainCreate (cfg : Config) (media : string -> string) (file : string)
  : Call :=
  FilesCreate {| Id := ""; Name := nameAfterAllRules cfg file;
                 MimeType := mimeType cfg; Parents := [folderId cfg] |}
              (Some (media file)).

(** A directory name as it stands in a clean relative path: not empty,
    without separator, and neither [.] nor [..]. *)
Definition plainSegment (seg : string) : Prop :=
  seg <> "" /\ noSeparator seg /\ seg <> "." /\ seg <> "..".

(** The path made of the segments, joined by the separator. *)
Definition joinPath (segs : list string) : string :=
  String.concat (String filepath.Separator "") segs.

(** What [Clean] has in its buffer after it appended an element. *)
Definition withElement (buf e : string) : string :=
  if (String.length buf =? 0)%nat then e
  else buf ++ String filepath.Separator "" ++ e.

(** The string begins with the path separator. *)
Definition rooted (s : string) : Prop :=
  exists t, s = String filepath.Separator t.

(** ** The Go library *)

Lemma scanBack_noSeparator (path : string) (k : nat) :
  noSeparator path -> filepath.scanBack path k = 0.
Proof.
  intros Hno. induction k as [|i IH]; simpl; [reflexivity|].
  unfold filepath.sepAt. destruct (String.get i path) as [c|] eqn:Hget.
  - now rewrite (Hno i c Hget).
  - exact IH.
Qed.

Lemma Dir_noSeparator (path : string) :
  noSeparator path -> filepath.Dir path = ".".
Proof.
  intros Hno. unfold filepath.Dir. rewrite scanBack_noSeparator by exact Hno.
  now destruct path.
Qed.

Lemma Base_nonempty (path : string) : filepath.Base path <> "".
Proof.
  unfold filepath.Base. destruct (String.eqb path ""); [discriminate|].
  match goal with
  | |- (if String.eqb ?p "" then _ else _) <> _ =>
      destruct (String.eqb_spec p ""); [discriminate | assumption]
  end.
Qed.

(** Every turn of the loop of [Clean] reads at least one byte, so the fuel
    [length path] never runs out. *)
Lemma copyElement_length (rest : string) :
  String.length (snd (filepath.copyElement rest)) <= String.length rest.
Proof.
  induction rest as [|c rest IH]; simpl; [lia|].
  destruct (filepath.IsPathSeparator c); simpl; [lia|].
  destruct (filepath.copyElement rest); simpl in *; lia.
Qed.

Lemma copyElement_progress (c : ascii) (rest : string) :
  filepath.IsPathSeparator c = false ->
  String.length (snd (filepath.copyElement (String c rest))) <= String.length rest.
Proof.
  intros Hc. simpl. rewrite Hc.
  pose proof (copyElement_length rest) as H.
  destruct (filepath.copyElement rest); simpl in *; lia.
Qed.

Lemma cleanLoop_fuel (fuel : nat) :
  forall fuel' rooted rest buf dotdot,
    String.length rest <= fuel -> String.length rest <= fuel' ->
    filepath.cleanLoop fuel rooted rest buf dotdot
    = filepath.cleanLoop fuel' rooted rest buf dotdot.
Proof.
  induction fuel as [|n IH]; intros fuel' rooted rest buf dotdot H1 H2.
  - destruct rest; simpl in H1; [|lia]. now destruct fuel'.
  - destruct fuel' as [|m].
    + destruct rest; simpl in H2; [reflexivity | lia].
    + destruct rest as [|c r1]; [reflexivity|].
      simpl in H1, H2. cbn [filepath.cleanLoop].
      destruct (filepath.IsPathSeparator c) eqn:Hc; [apply IH; lia|].
      destruct (Ascii.eqb c "." && filepath.atEndOrSep r1); [apply IH; lia|].
      match goal with
      | |- (if ?b then _ else _) = _ => destruct b eqn:Hdd
      end.
      * destruct r1 as [|d r2]; [now rewrite andb_false_r in Hdd|].
        simpl in H1, H2.
        destruct (dotdot <? String.length buf)%nat; [apply IH; lia|].
        destruct (negb rooted); apply IH; lia.
      * pose proof (copyElement_progress c r1 Hc) as Hp.
        destruct (filepath.copyElement (String c r1)) as [e r]; simpl in Hp.
        apply IH; lia.
Qed.

(** ** Worlds and printing *)

Lemma printed_nil {St} (w : World St) : printed w [] = w.
Proof. destruct w; unfold printed; simpl. now rewrite app_nil_r. Qed.

Lemma printed_printed {St} (w : World St) (a b : list Output) :
  printed (printed w a) b = printed w (a ++ b)%list.
Proof. unfold printed; simpl. now rewrite app_assoc. Qed.

Lemma say_run {St} (o : Output) (w : World St) : say o w = (inr tt, printed w [o]).
Proof. reflexivity. Qed.

(** ** Directory mirror *)

Section Mirror.

Context {St : Type}.
Variable svc : Service St.
Variables folderId name : string.

Lemma scanParents_run (i : File) (ps : list string) :
  forall acc (w : World St),
  exists out,
    scanParents folderId name i ps acc w
    = (inr (countParents folderId i ps acc), printed w out).
Proof.
  induction ps as [|p ps IH]; intros acc w; simpl.
  - exists []. now rewrite printed_nil.
  - destruct (String.eqb p folderId).
    + unfold bind. rewrite say_run.
      destruct (IH (S (fst acc), Id i) (printed w [OutFoundFolder name]))
        as [out Hout].
      exists ([OutFoundFolder name] ++ out)%list.
      now rewrite Hout, printed_printed.
    + apply IH.
Qed.

Lemma scanFolders_run (fs : list File) :
  forall acc (w : World St),
  exists out,
    scanFolders folderId name fs acc w
    = (inr (countFolders folderId fs acc), printed w out).
Proof.
  induction fs as [|i fs IH]; intros acc w; simpl.
  - exists []. now rewrite printed_nil.
  - unfold bind.
    destruct (scanParents_run i (Parents i) acc w) as [out1 H1]. rewrite H1.
    destruct (IH (countParents folderId i (Parents i) acc) (printed w out1))
      as [out2 H2].
    exists (out1 ++ out2)%list. now rewrite H2, printed_printed.
Qed.

Lemma countParents_absent (i : File) (ps : list string) :
  forall acc,
    existsb (fun p => String.eqb p folderId) ps = false ->
    countParents folderId i ps acc = acc.
Proof.
  induction ps as [|p ps IH]; intros acc H; simpl in *; [reflexivity|].
  apply orb_false_elim in H as [Hp Hps]. rewrite Hp. now apply IH.
Qed.

Lemma countParents_mono (i : File) (ps : list string) :
  forall acc, fst acc <= fst (countParents folderId i ps acc).
Proof.
  induction ps as [|p ps IH]; intros acc; simpl; [lia|].
  destruct (String.eqb p folderId); [|apply IH].
  specialize (IH (S (fst acc), Id i)). simpl in IH. lia.
Qed.

Lemma countParents_present (i : File) (ps : list string) :
  forall acc,
    existsb (fun p => String.eqb p folderId) ps = true ->
    fst acc < fst (countParents folderId i ps acc)
    /\ snd (countParents folderId i ps acc) = Id i.
Proof.
  induction ps as [|p ps IH]; intros acc H; simpl in *; [discriminate|].
  destruct (String.eqb p folderId) eqn:Hp.
  - destruct (existsb (fun p => String.eqb p folderId) ps) eqn:Hps.
    + destruct (IH (S (fst acc), Id i) eq_refl) as [Hlt Hid].
      simpl in Hlt. split; [lia | exact Hid].
    + rewrite countParents_absent by exact Hps. simpl. split; [lia | reflexivity].
  - simpl in H. now apply IH.
Qed.

Lemma countFolders_snoc (fs : list File) (i : File) (acc : nat * string) :
  countFolders folderId (fs ++ [i]) acc
  = countParents folderId i (Parents i) (countFolders folderId fs acc).
Proof. unfold countFolders. now rewrite fold_left_app. Qed.

Lemma countFolders_mono (fs : list File) :
  forall acc, fst acc <= fst (countFolders folderId fs acc).
Proof.
  induction fs as [|i fs IH]; intros acc; simpl; [lia|].
  etransitivity; [apply (countParents_mono i (Parents i))|apply IH].
Qed.

Lemma countFolders_none (fs : list File) (acc : nat * string) :
  foldersUnder folderId fs = [] -> countFolders folderId fs acc = acc.
Proof.
  revert acc. induction fs as [|i fs IH]; intros acc H; [reflexivity|].
  simpl in *. unfold foldersUnder in H. simpl in H.
  destruct (inFolder folderId i) eqn:Hi; [discriminate|].
  unfold inFolder in Hi. rewrite countParents_absent by exact Hi.
  now apply IH.
Qed.

(** With a match in the listing, the loops end on a positive count and on
    the id of the last listed folder lying in [folderId]. *)
Lemma countFolders_last (fs : list File) :
  forall acc l i,
    foldersUnder folderId fs = (l ++ [i])%list ->
    0 < fst (countFolders folderId fs acc)
    /\ snd (countFolders folderId fs acc) = Id i.
Proof.
  induction fs as [|x fs IH] using rev_ind; intros acc l i H.
  - now destruct l.
  - unfold foldersUnder in H. rewrite filter_app in H. simpl in H.
    rewrite countFolders_snoc.
    destruct (inFolder folderId x) eqn:Hx.
    + apply app_inj_tail in H as [_ <-].
      destruct (countParents_present x (Parents x)
                  (countFolders folderId fs acc) Hx) as [Hlt Hid].
      split; [lia | exact Hid].
    + rewrite app_nil_r in H.
      rewrite countParents_absent by exact Hx. now apply (IH acc l i).
Qed.

End Mirror.

(** C2 (as amended): one directory-mirror step on a segment name and the
    current folder id, when the lookup for that name answers.  If one or more
    listed folders have the current folder id in their parent set, the step
    makes no other call and adopts the id of the LAST such folder in the
    listing; if none has, it asks the service to create a folder of that name
    whose only parent is the current folder id and adopts the created
    folder's id (or exits when the creation fails). *)
Theorem createDriveDirectory_step :
  forall St (svc : Service St) (folderId name : string) (w : World St)
         (rFiles : list File),
    list_do svc (folderQuery name) (remote w) = inr rFiles ->
    (forall l i,
        foldersUnder folderId rFiles = (l ++ [i])%list ->
        exists out,
          createDriveDirectory svc folderId name w
          = (inr (Id i), afterLookup w name out))
    /\ (foldersUnder folderId rFiles = [] ->
        exists out,
          createDriveDirectory svc folderId name w
          = afterCreate svc w folderId name out).
Proof.
  intros St svc folderId name w rFiles Hlist.
  unfold createDriveDirectory, bind. rewrite say_run.
  unfold filesList. cbn [remote printed].
  change ("name='" ++ name ++ "'" ++ " and mimeType='application/vnd.google-apps.folder'")
    with (folderQuery name).
  rewrite Hlist.
  match goal with
  | |- context [scanFolders folderId name rFiles (0, "") ?w1] =>
      destruct (scanFolders_run folderId name rFiles (0, "") w1) as [out Hrun];
      rewrite Hrun
  end.
  split.
  - intros l i Hlast.
    destruct (countFolders_last folderId rFiles (0, "") l i Hlast) as [Hpos Hid].
    destruct (countFolders folderId rFiles (0, "")) as [found next].
    simpl in Hpos, Hid. subst next.
    destruct found as [|n]; [lia|]. simpl.
    eexists. unfold ret, afterLookup, printed, record. simpl. reflexivity.
  - intros Hnone.
    rewrite (countFolders_none folderId rFiles (0, "") Hnone). simpl.
    unfold filesCreate, afterCreate, record, printed, newFolder. simpl.
    destruct (create_do svc _ None (remote w)) as [err|[d st]];
      eexists; simpl; rewrite <- app_assoc; reflexivity.
Qed.

Lemma createDriveDirectory_step_witness :
  list_do memdrive.service (folderQuery "a") twoFolders = inr twoFolders
  /\ exists out,
    createDriveDirectory memdrive.service "R" "a" (memdrive.start twoFolders)
    = (inr "F2", afterLookup (memdrive.start twoFolders) "a" out).
Proof.
  split; [reflexivity|].
  exact (proj1 (createDriveDirectory_step memdrive.St memdrive.service "R" "a"
                  (memdrive.start twoFolders) twoFolders eq_refl)
           [folder "F1" "a" "R"] (folder "F2" "a" "R") eq_refl).
Defined.

(** C2 (as stated) fails: with two listed folders named [a] under [R], the
    step adopts the id of the second one, not of the first match. *)
Lemma createDriveDirectory_first_match_counterexample :
  list_do memdrive.service (folderQuery "a") twoFolders = inr twoFolders
  /\ foldersUnder "R" twoFolders = [folder "F1" "a" "R"; folder "F2" "a" "R"]
  /\ fst (createDriveDirectory memdrive.service "R" "a" (memdrive.start twoFolders))
     = inr "F2"
  /\ fst (createDriveDirectory memdrive.service "R" "a" (memdrive.start twoFolders))
     <> inr (Id (folder "F1" "a" "R")).
Proof.
  repeat split; try reflexivity. vm_compute. discriminate.
Qed.

(** ** Overwrite resolver *)

Lemma last_cons {A} (l : list A) : forall a d, last (a :: l) d = last l a.
Proof.
  induction l as [|b l IH]; intros a d; [reflexivity|].
  change (last (a :: b :: l) d) with (last (b :: l) d).
  now rewrite !IH.
Qed.

Section Overwrite.

Context {St : Type}.
Variable env : Env.
Variable svc : Service St.
Variables name folderId : string.

Lemma scanExpected_run (ps : list string) :
  forall w : World St,
  exists out,
    scanExpected folderId ps w
    = (inr (existsb (fun p => String.eqb p folderId) ps), printed w out).
Proof.
  induction ps as [|p ps IH]; intros w; simpl.
  - exists []. now rewrite printed_nil.
  - destruct (String.eqb p folderId); simpl.
    + exists [OutFoundInFolder]. reflexivity.
    + apply IH.
Qed.

(** What the loop leaves in [currentFile], started from [cur]. *)
Lemma findCurrentFile_run (fs : list File) :
  forall cur (w : World St),
  exists out,
    findCurrentFile name folderId fs cur w
    = (inr match find (fun i => sameName name i && inFolder folderId i) fs with
           | Some i => Some i
           | None => last (map Some (filter (sameName name) fs)) cur
           end,
       printed w out).
Proof.
  induction fs as [|i fs IH]; intros cur w; simpl.
  - exists []. now rewrite printed_nil.
  - unfold sameName at 1 3. destruct (String.eqb name (Name i)) eqn:Hn; simpl.
    + unfold bind.
      destruct (scanExpected_run (Parents i) w) as [out1 H1]. rewrite H1.
      fold (inFolder folderId i). destruct (inFolder folderId i).
      * exists out1. reflexivity.
      * destruct (IH (Some i) (printed w out1)) as [out2 H2].
        exists (out1 ++ out2)%list. rewrite H2, printed_printed.
        destruct (find _ fs); [reflexivity|].
        now rewrite <- (last_cons (map Some (filter (sameName name) fs)) (Some i) cur).
    + apply IH.
Qed.

Lemma uploadToDrive_calls (filename mimeType media : string)
      (target : option File) (w : World St) :
  Lstat env filename = inr false ->
  Open env filename = inr media ->
  calls (snd (uploadToDrive env svc filename folderId target name mimeType w))
  = (calls w ++ [uploadCall target folderId name mimeType media])%list.
Proof.
  intros Hstat Hopen. unfold uploadToDrive. rewrite Hstat, Hopen.
  unfold bind, uploadCall.
  destruct target as [d|].
  - unfold filesUpdate.
    destruct (update_do svc _ _ _ _ _) as [err|[d' st]]; reflexivity.
  - unfold filesCreate.
    destruct (create_do svc _ _ _) as [err|[d' st]]; reflexivity.
Qed.

Lemma uploadFile_calls (filename mimeType media : string)
      (rFiles : list File) (w : World St) :
  list_do svc (nameQuery name) (remote w) = inr rFiles ->
  Lstat env filename = inr false ->
  Open env filename = inr media ->
  calls (snd (uploadFile env svc filename folderId name mimeType true w))
  = (calls w ++ [FilesList (nameQuery name);
                 uploadCall (overwriteTarget name folderId rFiles)
                            folderId name mimeType media])%list.
Proof.
  intros Hlist Hstat Hopen.
  unfold uploadFile, bind. rewrite say_run. unfold filesList.
  cbn [remote printed]. fold (nameQuery name). rewrite Hlist, say_run.
  match goal with
  | |- context [findCurrentFile name folderId rFiles None ?w1] =>
      destruct (findCurrentFile_run rFiles None w1) as [out Hrun];
      rewrite Hrun
  end.
  fold (overwriteTarget name folderId rFiles).
  destruct (overwriteTarget name folderId rFiles) as [f|];
    rewrite say_run, (uploadToDrive_calls _ _ media _ _ Hstat Hopen);
    simpl; now rewrite <- app_assoc.
Qed.

Lemma find_first_inFolder (pre post : list File) (f : File) :
  sameName name f = true -> inFolder folderId f = true ->
  noneInFolder name folderId pre ->
  find (fun i => sameName name i && inFolder folderId i) (pre ++ f :: post)
  = Some f.
Proof.
  intros Hn Hf Hpre. induction pre as [|g pre IH]; simpl.
  - now rewrite Hn, Hf.
  - rewrite (Hpre g (or_introl eq_refl)).
    apply IH. intros h Hh. apply Hpre. now right.
Qed.

Lemma overwriteTarget_first (pre post : list File) (f : File) :
  sameName name f = true -> inFolder folderId f = true ->
  noneInFolder name folderId pre ->
  overwriteTarget name folderId (pre ++ f :: post) = Some f.
Proof.
  intros Hn Hf Hpre. unfold overwriteTarget.
  now rewrite (find_first_inFolder pre post f Hn Hf Hpre).
Qed.

Lemma find_noneInFolder (fs : list File) :
  noneInFolder name folderId fs ->
  find (fun i => sameName name i && inFolder folderId i) fs = None.
Proof.
  intros H. induction fs as [|g fs IH]; [reflexivity|]. simpl.
  rewrite (H g (or_introl eq_refl)). apply IH.
  intros h Hh. apply H. now right.
Qed.

Lemma overwriteTarget_last (fs l : list File) (f : File) :
  noneInFolder name folderId fs ->
  filter (sameName name) fs = (l ++ [f])%list ->
  overwriteTarget name folderId fs = Some f.
Proof.
  intros Hnone Hl. unfold overwriteTarget.
  rewrite (find_noneInFolder fs Hnone), Hl, map_app. simpl.
  apply last_last.
Qed.

Lemma overwriteTarget_none (fs : list File) :
  (forall g, In g fs -> sameName name g = false) ->
  overwriteTarget name folderId fs = None.
Proof.
  intros H. unfold overwriteTarget.
  rewrite find_noneInFolder
    by (intros g Hg; now rewrite (H g Hg)).
  replace (filter (sameName name) fs) with (@nil File); [reflexivity|].
  symmetry. induction fs as [|g fs IH]; [reflexivity|]. simpl.
  rewrite (H g (or_introl eq_refl)). apply IH.
  intros h Hh. apply H. now right.
Qed.

End Overwrite.

(** C1 (as amended): an overwrite-enabled upload of a regular file, when the
    lookup for the target name answers, makes exactly that lookup and one
    upload call.  (a) If a listed object has the target name and the target
    folder among its parents, the first such object is updated.  (b) If none
    has both but some listed objects have the target name, the LAST listed
    object of that name is updated, wherever it lies (the update adds the
    target folder to its parents).  (c) Only when no listed object has the
    target name is the upload a create. *)
Theorem uploadFile_overwrite_target :
  forall St (env : Env) (svc : Service St)
         (filename folderId name mimeType media : string)
         (rFiles : list File) (w : World St),
    list_do svc (nameQuery name) (remote w) = inr rFiles ->
    Lstat env filename = inr false ->
    Open env filename = inr media ->
    let made target :=
      calls (snd (uploadFile env svc filename folderId name mimeType true w))
      = (calls w ++ [FilesList (nameQuery name);
                     uploadCall target folderId name mimeType media])%list in
    (forall pre f post,
        rFiles = (pre ++ f :: post)%list ->
        sameName name f = true -> inFolder folderId f = true ->
        noneInFolder name folderId pre ->
        made (Some f))
    /\ (forall l f,
           noneInFolder name folderId rFiles ->
           filter (sameName name) rFiles = (l ++ [f])%list ->
           made (Some f))
    /\ ((forall g, In g rFiles -> sameName name g = false) -> made None).
Proof.
  intros St env svc filename folderId name mimeType media rFiles w
         Hlist Hstat Hopen made.
  pose proof (uploadFile_calls env svc name folderId filename mimeType media
                rFiles w Hlist Hstat Hopen) as Hcalls.
  unfold made. repeat split.
  - intros pre f post -> Hn Hf Hpre.
    now rewrite Hcalls, (overwriteTarget_first name folderId pre post f Hn Hf Hpre).
  - intros l f Hnone Hl.
    now rewrite Hcalls, (overwriteTarget_last name folderId rFiles l f Hnone Hl).
  - intros Hno.
    now rewrite Hcalls, (overwriteTarget_none name folderId rFiles Hno).
Qed.

Lemma uploadFile_overwrite_target_witness :
  list_do memdrive.service (nameQuery "x.txt") [strayFile] = inr [strayFile]
  /\ calls (snd (uploadFile plainRunner memdrive.service "x.txt" "R" "x.txt" ""
                   true (memdrive.start [strayFile])))
     = [FilesList (nameQuery "x.txt");
        uploadCall (Some strayFile) "R" "x.txt" "" "data"].
Proof.
  split; [reflexivity|].
  refine (proj1 (proj2 (uploadFile_overwrite_target memdrive.St plainRunner
                          memdrive.service "x.txt" "R" "x.txt" "" "data"
                          [strayFile] (memdrive.start [strayFile])
                          eq_refl eq_refl eq_refl))
            [] strayFile _ eq_refl).
  intros g [<-|[]]. reflexivity.
Defined.

(** C1 (as stated) fails: the only object named [x.txt] lies in folder
    [OTHER], the target folder is [R], and the resolver still selects it and
    the upload is an update of that object, not a create. *)
Lemma uploadFile_other_folder_counterexample :
  sameName "x.txt" strayFile = true
  /\ inFolder "R" strayFile = false
  /\ fst (findCurrentFile "x.txt" "R" [strayFile] None
            (memdrive.start [strayFile]))
     = inr (Some strayFile)
  /\ calls (snd (uploadFile plainRunner memdrive.service "x.txt" "R" "x.txt" ""
                   true (memdrive.start [strayFile])))
     = [FilesList "name='x.txt'";
        FilesUpdate "X"
          {| Id := ""; Name := "x.txt"; MimeType := ""; Parents := [] |}
          "R" "data"].
Proof. repeat split. Qed.

(** ** Batch driver *)

Lemma bind_assoc {St A B C} (m : M A) (k : A -> M B) (h : B -> M C)
      (w : World St) :
  bind (bind m k) h w = bind m (fun a => bind (k a) h) w.
Proof. unfold bind. destruct (m w) as [[e|a] w']; reflexivity. Qed.

Lemma bind_ret_r {St A} (m : M A) (w : World St) :
  bind m (fun a => ret a) w = m w.
Proof. unfold bind, ret. destruct (m w) as [[e|a] w']; reflexivity. Qed.

Lemma bind_ext {St A B} (m : M A) (k k' : A -> M B) (w : World St) :
  (forall a w', k a w' = k' a w') -> bind m k w = bind m k' w.
Proof. intros H. unfold bind. destruct (m w) as [[e|a] w']; [reflexivity|apply H]. Qed.

(** C3: with mirroring on, the turn for the local path [a/b/c/file.txt],
    whatever the root folder [R], the service and its state, runs the mirror
    step for [a] under [R], then for [b] under the id resolved for [a], then
    for [c] under the id resolved for [b], and hands the id resolved for [c]
    (not [R]) to the upload as the target folder. *)
Theorem processFile_mirrors_abc :
  forall St (env : Env) (svc : Service St) (cfg : Config)
         (R folderId : string) (w : World St),
    mirrorDirectoryStructureFlag cfg = true ->
    processFile env svc cfg R folderId "a/b/c/file.txt" w
    = (say (OutProcessing "a/b/c/file.txt") ;;
       say (OutMirroring ["a"; "b"; "c"]) ;;
       ida <- createDriveDirectory svc R "a" ;;
       idb <- createDriveDirectory svc ida "b" ;;
       idc <- createDriveDirectory svc idb "c" ;;
       match resolveTargetName cfg "a/b/c/file.txt" with
       | inl e => fatal e
       | inr targetName =>
           uploadFile env svc "a/b/c/file.txt" idc targetName (mimeType cfg)
                      (overwriteFlag cfg) ;;
           ret idc
       end) w.
Proof.
  intros St env svc cfg R folderId w Hflag.
  unfold processFile, processFrom, mirrorFile. rewrite Hflag.
  change (strings.Split (filepath.Dir "a/b/c/file.txt") filepath.Separator)
    with ["a"; "b"; "c"].
  cbn [mirrorLoop].
  apply bind_ext; intros _ w1.
  rewrite bind_assoc. apply bind_ext; intros _ w2.
  rewrite bind_assoc. apply bind_ext; intros ida w3.
  rewrite bind_assoc. apply bind_ext; intros idb w4.
  rewrite bind_assoc. apply bind_ext; intros idc w5.
  reflexivity.
Qed.

(** On a service without folders the calls are, in order: lookup and create
    of [a] under [R], of [b] under the new [a], of [c] under the new [b], and
    the file created with the new [c] as its only parent. *)
Lemma processFile_mirrors_abc_witness :
  mirrorDirectoryStructureFlag (mirrorConfig ["a/b/c/file.txt"]) = true
  /\ calls (snd (processFile plainRunner memdrive.service
                   (mirrorConfig ["a/b/c/file.txt"]) "R" "R" "a/b/c/file.txt"
                   (memdrive.start [])))
     = [FilesList (folderQuery "a"); FilesCreate (newFolder "R" "a") None;
        FilesList (folderQuery "b"); FilesCreate (newFolder "new" "b") None;
        FilesList (folderQuery "c"); FilesCreate (newFolder "new+" "c") None;
        uploadCall None "new++" "file.txt" "" "data"].
Proof.
  split; [reflexivity|].
  rewrite (processFile_mirrors_abc memdrive.St plainRunner
             memdrive.service (mirrorConfig ["a/b/c/file.txt"]) "R" "R"
             (memdrive.start []) eq_refl).
  reflexivity.
Defined.

(** C10: with mirroring on, the turn for a matched path without any
    directory separator still runs one mirror step, for the segment [.]
    under the root, and uploads into the folder that step resolves instead
    of the root. *)
Theorem processFile_mirrors_dot :
  forall St (env : Env) (svc : Service St) (cfg : Config)
         (R folderId file : string) (w : World St),
    mirrorDirectoryStructureFlag cfg = true ->
    noSeparator file ->
    processFile env svc cfg R folderId file w
    = (say (OutProcessing file) ;;
       say (OutMirroring ["."]) ;;
       dot <- createDriveDirectory svc R "." ;;
       match resolveTargetName cfg file with
       | inl e => fatal e
       | inr targetName =>
           uploadFile env svc file dot targetName (mimeType cfg)
                      (overwriteFlag cfg) ;;
           ret dot
       end) w.
Proof.
  intros St env svc cfg R folderId file w Hflag Hno.
  unfold processFile, processFrom, mirrorFile. rewrite Hflag.
  rewrite (Dir_noSeparator file Hno).
  change (strings.Split "." filepath.Separator) with ["."].
  cbn [mirrorLoop].
  apply bind_ext; intros _ w1.
  rewrite bind_assoc. apply bind_ext; intros _ w2.
  rewrite bind_assoc. apply bind_ext; intros dot w3.
  reflexivity.
Qed.

Lemma noSeparator_file_txt : noSeparator "file.txt".
Proof.
  intros i c H.
  do 8 (destruct i as [|i]; [injection H as <-; reflexivity|]).
  discriminate.
Qed.

(** On a service without folders a folder named [.] is created under [R] and
    the file is created with that folder, not [R], as its only parent. *)
Lemma processFile_mirrors_dot_witness :
  mirrorDirectoryStructureFlag (mirrorConfig ["file.txt"]) = true
  /\ noSeparator "file.txt"
  /\ calls (snd (processFile plainRunner memdrive.service
                   (mirrorConfig ["file.txt"]) "R" "R" "file.txt"
                   (memdrive.start [])))
     = [FilesList (folderQuery "."); FilesCreate (newFolder "R" ".") None;
        uploadCall None "new" "file.txt" "" "data"].
Proof.
  split; [reflexivity|]. split; [exact noSeparator_file_txt|].
  rewrite (processFile_mirrors_dot memdrive.St plainRunner
             memdrive.service (mirrorConfig ["file.txt"]) "R" "R" "file.txt"
             (memdrive.start []) eq_refl noSeparator_file_txt).
  reflexivity.
Defined.

(** *** The working folder id *)

Section Driver.

Context {St : Type}.
Variable env : Env.
Variable svc : Service St.
Variable cfg : Config.
Variable originalFolderId : string.

(** Whatever the turns before left in [folderId], the turn of a file runs
    the loop body from [originalFolderId]. *)
Lemma filesLoop_app (pre : list string) (file : string) (post : list string) :
  forall folderId (w : World St),
    filesLoop env svc cfg originalFolderId (pre ++ file :: post) folderId w
    = (filesLoop env svc cfg originalFolderId pre folderId ;;
       folderId' <- processFrom env svc cfg originalFolderId file ;;
       filesLoop env svc cfg originalFolderId post folderId') w.
Proof.
  induction pre as [|f pre IH]; intros folderId w; simpl.
  - reflexivity.
  - rewrite bind_assoc. apply bind_ext. intros folderId' w'. apply IH.
Qed.

(** *** What the mirror does to the service *)

Lemma createDriveDirectory_effects (folderId name : string) (w : World St) :
  uploads (calls (snd (createDriveDirectory svc folderId name w)))
  = uploads (calls w)
  /\ forall e, fst (createDriveDirectory svc folderId name w) = inl e ->
               mirrorFailure e.
Proof.
  unfold createDriveDirectory, bind. rewrite say_run. unfold filesList.
  cbn [remote printed].
  destruct (list_do svc _ (remote w)) as [err|rFiles].
  - simpl. unfold uploads. rewrite filter_app. simpl. rewrite app_nil_r.
    split; [reflexivity|]. intros e [= <-]. exists err. now left.
  - match goal with
    | |- context [scanFolders folderId name rFiles (0, "") ?w1] =>
        destruct (scanFolders_run folderId name rFiles (0, "") w1)
          as [out Hrun]; rewrite Hrun
    end.
    destruct (countFolders folderId rFiles (0, "")) as [found next].
    destruct found as [|n]; simpl.
    + unfold filesCreate. cbn [remote printed record].
      destruct (create_do svc _ None (remote w)) as [err|[d st]]; simpl;
        unfold uploads; rewrite !filter_app; simpl; rewrite !app_nil_r;
        (split; [reflexivity|]).
      * intros e [= <-]. exists err. now right.
      * discriminate.
    + unfold uploads. rewrite filter_app. simpl. rewrite app_nil_r.
      split; [reflexivity | discriminate].
Qed.

Lemma mirrorLoop_effects (ds : list string) :
  forall folderId (w : World St),
    uploads (calls (snd (mirrorLoop svc ds folderId w))) = uploads (calls w)
    /\ forall e, fst (mirrorLoop svc ds folderId w) = inl e -> mirrorFailure e.
Proof.
  induction ds as [|dir ds IH]; intros folderId w; simpl.
  - split; [reflexivity | discriminate].
  - unfold bind.
    destruct (createDriveDirectory_effects folderId dir w) as [Hu Hf].
    destruct (createDriveDirectory svc folderId dir w) as [[e|next] w1];
      simpl in *.
    + split; [exact Hu | intros e' [= <-]; now apply Hf].
    + destruct (IH next w1) as [Hu' Hf']. split; [congruence | exact Hf'].
Qed.

Lemma mirrorFile_effects (file folderId : string) (w : World St) :
  uploads (calls (snd (mirrorFile svc cfg file folderId w))) = uploads (calls w)
  /\ forall e, fst (mirrorFile svc cfg file folderId w) = inl e ->
               mirrorFailure e.
Proof.
  unfold mirrorFile. destruct (mirrorDirectoryStructureFlag cfg).
  - unfold bind. rewrite say_run.
    exact (mirrorLoop_effects _ folderId (printed w _)).
  - split; [reflexivity | discriminate].
Qed.

End Driver.

(** C4: in a run over the matched files, whatever the turns of the files
    before it did, the turn of each file runs the loop body with the working
    folder id equal to the configured root folder id; the folder ids that
    mirroring one file produced are not the starting point of the next. *)
Theorem uploadAll_restarts_from_root :
  forall St (env : Env) (svc : Service St) (cfg : Config)
         (pre : list string) (file : string) (post : list string)
         (w : World St),
    files cfg = (pre ++ file :: post)%list ->
    uploadAll env svc cfg w
    = (filesLoop env svc cfg (folderId cfg) pre (folderId cfg) ;;
       folderId' <- processFrom env svc cfg (folderId cfg) file ;;
       filesLoop env svc cfg (folderId cfg) post folderId') w.
Proof.
  intros St env svc cfg pre file post w Hfiles.
  unfold uploadAll. rewrite Hfiles. apply filesLoop_app.
Qed.

(** After [a/x.txt] was mirrored into a new folder [a], the turn of
    [b/y.txt] looks up and creates [b] under the root [R] again. *)
Lemma uploadAll_restarts_from_root_witness :
  files (mirrorConfig ["a/x.txt"; "b/y.txt"]) = (["a/x.txt"] ++ "b/y.txt" :: [])%list
  /\ calls (snd (uploadAll plainRunner memdrive.service
                   (mirrorConfig ["a/x.txt"; "b/y.txt"]) (memdrive.start [])))
     = [FilesList (folderQuery "a"); FilesCreate (newFolder "R" "a") None;
        uploadCall None "new" "x.txt" "" "data";
        FilesList (folderQuery "b"); FilesCreate (newFolder "R" "b") None;
        uploadCall None "new++" "y.txt" "" "data"].
Proof.
  split; [reflexivity|].
  rewrite (uploadAll_restarts_from_root memdrive.St plainRunner memdrive.service
             (mirrorConfig ["a/x.txt"; "b/y.txt"]) ["a/x.txt"] "b/y.txt" []
             (memdrive.start []) eq_refl).
  reflexivity.
Defined.

(** *** Name resolver *)

(** C5 (as amended): when the glob matched more than one file and the
    full-source-name flag is off, the resolved target name of every file is
    its base name, with the name prefix prepended when one is configured,
    whatever the configured name. *)
Theorem resolveTargetName_multiple :
  forall (cfg : Config) (file : string),
    1 < List.length (files cfg) ->
    useCompleteSourceFilenameAsNameFlag cfg = false ->
    resolveTargetName cfg file
    = inr (if String.eqb (filenamePrefix cfg) "" then filepath.Base file
           else filenamePrefix cfg ++ filepath.Base file).
Proof.
  intros cfg file Hmany Hflag.
  unfold resolveTargetName, chooseTargetName, checkTargetName, useSourceFilename.
  rewrite Hflag.
  destruct (Nat.ltb_spec 1 (List.length (files cfg))); [|lia]. simpl.
  destruct (String.eqb_spec (filepath.Base file) "") as [Hb|_].
  - now apply Base_nonempty in Hb.
  - now destruct (String.eqb (filenamePrefix cfg) "").
Qed.

Lemma resolveTargetName_multiple_witness :
  1 < List.length (files (pairConfig false "p-"))
  /\ resolveTargetName (pairConfig false "p-") "d/a.txt" = inr "p-a.txt".
Proof.
  split; [simpl; lia|].
  apply (resolveTargetName_multiple (pairConfig false "p-") "d/a.txt");
    [simpl; lia | reflexivity].
Defined.

(** C5 (as stated) fails: two files matched, the full-source-name flag is on,
    and the resolved name of [d/a.txt] is the whole path, not its base name
    [a.txt]. *)
Lemma resolveTargetName_multiple_counterexample :
  List.length (files (pairConfig true "")) = 2
  /\ resolveTargetName (pairConfig true "") "d/a.txt" = inr "d/a.txt"
  /\ filepath.Base "d/a.txt" = "a.txt"
  /\ resolveTargetName (pairConfig true "") "d/a.txt"
     <> inr (filepath.Base "d/a.txt").
Proof. repeat split. discriminate. Qed.

(** C6: with the full-source-name flag on, the resolved target name of a
    matched path is that path as it is, directories included, with the name
    prefix prepended when it is not empty. *)
Theorem resolveTargetName_complete :
  forall (cfg : Config) (file : string),
    useCompleteSourceFilenameAsNameFlag cfg = true ->
    file <> "" ->
    resolveTargetName cfg file
    = inr (if String.eqb (filenamePrefix cfg) "" then file
           else filenamePrefix cfg ++ file).
Proof.
  intros cfg file Hflag Hfile.
  unfold resolveTargetName, chooseTargetName, checkTargetName. rewrite Hflag.
  destruct (String.eqb_spec file "") as [Hf|_]; [contradiction|].
  now destruct (String.eqb (filenamePrefix cfg) "").
Qed.

Lemma resolveTargetName_complete_witness :
  useCompleteSourceFilenameAsNameFlag (pairConfig true "p-") = true
  /\ resolveTargetName (pairConfig true "p-") "d/a.txt" = inr "p-d/a.txt".
Proof.
  split; [reflexivity|].
  apply (resolveTargetName_complete (pairConfig true "p-") "d/a.txt");
    [reflexivity | discriminate].
Defined.

Lemma nameAfterAllRules_empty (cfg : Config) (file : string) :
  nameAfterAllRules cfg file = "" -> resolveTargetName cfg file = inl NoTargetName.
Proof.
  unfold nameAfterAllRules, resolveTargetName, checkTargetName.
  destruct (String.eqb_spec (filenamePrefix cfg) "") as [_|Hp]; simpl.
  - now intros ->.
  - destruct (filenamePrefix cfg); [contradiction | discriminate].
Qed.

(** C8: when the name resolved for a file by the four naming rules is empty,
    the run exits at that file's turn: no upload call is made for it, the
    files after it are not processed, and the exit is the missing-name one
    unless a mirror step of that turn already failed. *)
Theorem empty_name_aborts :
  forall St (env : Env) (svc : Service St) (cfg : Config)
         (originalFolderId file : string) (rest : list string)
         (folderId : string) (w : World St),
    nameAfterAllRules cfg file = "" ->
    exists e w',
      filesLoop env svc cfg originalFolderId (file :: rest) folderId w = (inl e, w')
      /\ uploads (calls w') = uploads (calls w)
      /\ (e = NoTargetName \/ mirrorFailure e).
Proof.
  intros St env svc cfg originalFolderId file rest folderId w Hempty.
  apply nameAfterAllRules_empty in Hempty.
  cbn [filesLoop]. unfold processFile, processFrom. rewrite Hempty.
  unfold bind at 1 2 3. rewrite say_run.
  destruct (mirrorFile_effects svc cfg file originalFolderId
              (printed w [OutProcessing file])) as [Hu Hf].
  destruct (mirrorFile svc cfg file originalFolderId
              (printed w [OutProcessing file])) as [[e|next] w1]; simpl in *.
  - exists e, w1. repeat split; [exact Hu | right; now apply Hf].
  - exists NoTargetName, w1. repeat split; [exact Hu | now left].
Qed.

Lemma empty_name_aborts_witness :
  nameAfterAllRules emptyNameConfig "" = ""
  /\ exists e w',
      filesLoop plainRunner memdrive.service emptyNameConfig "R" ["" ; "b.txt"]
                "R" (memdrive.start []) = (inl e, w')
      /\ uploads (calls w') = uploads (calls (memdrive.start []))
      /\ (e = NoTargetName \/ mirrorFailure e).
Proof.
  split; [reflexivity|].
  exact (empty_name_aborts memdrive.St plainRunner memdrive.service
           emptyNameConfig "R" "" ["b.txt"] "R" (memdrive.start []) eq_refl).
Defined.

(** *** Boolean inputs *)

Lemma ParseBool_error (s : string) :
  snd (strconv.ParseBool s) <> None -> fst (strconv.ParseBool s) = false.
Proof.
  unfold strconv.ParseBool.
  destruct (existsb (String.eqb s) ["1"; "t"; "T"; "true"; "TRUE"; "True"]);
    [now intros []|].
  now destruct (existsb (String.eqb s) ["0"; "f"; "F"; "false"; "FALSE"; "False"]).
Qed.

(** C9: for each of the inputs [overwrite],
    [useCompleteSourceFilenameAsName] and [mirrorDirectoryStructure], a value
    that is not empty and that [strconv.ParseBool] rejects yields the flag
    [false]: reading the flag returns normally, prints nothing and the parse
    error is dropped. *)
Theorem invalid_boolean_is_false :
  forall St (env : Env) (s : string) (w : World St),
    s <> "" ->
    snd (strconv.ParseBool s) <> None ->
    (GetInput env "overwrite" = s -> readOverwriteFlag env w = (inr false, w))
    /\ (GetInput env "useCompleteSourceFilenameAsName" = s ->
        readUseCompleteSourceFilenameAsNameFlag env w = (inr false, w))
    /\ (GetInput env "mirrorDirectoryStructure" = s ->
        readMirrorDirectoryStructureFlag env w = (inr false, w)).
Proof.
  intros St env s w Hne Herr.
  pose proof (ParseBool_error s Herr) as Hfalse.
  apply String.eqb_neq in Hne.
  unfold readOverwriteFlag, readUseCompleteSourceFilenameAsNameFlag,
    readMirrorDirectoryStructureFlag, useCompleteSourceName,
    mirrorDirectoryStructure.
  repeat split; intros ->; now rewrite Hne, Hfalse.
Qed.

(** With the three inputs set to [yes], reading [overwrite] yields [false],
    and the whole run exits normally after one create call, although an
    object named [x.txt] already lies in the root folder. *)
Lemma invalid_boolean_is_false_witness :
  "yes" <> ""
  /\ snd (strconv.ParseBool "yes") <> None
  /\ readOverwriteFlag yesRunner (memdrive.start [rootFile])
     = (inr false, memdrive.start [rootFile])
  /\ fst (main yesRunner memdrive.service (memdrive.start [rootFile])) = inr tt
  /\ calls (snd (main yesRunner memdrive.service (memdrive.start [rootFile])))
     = [uploadCall None "R" "x.txt" "" "data"].
Proof.
  split; [discriminate|]. split; [discriminate|].
  split; [|split; reflexivity].
  apply (invalid_boolean_is_false memdrive.St yesRunner "yes"
           (memdrive.start [rootFile])); [discriminate | discriminate | reflexivity].
Defined.

(** *** Uploader *)

Section Uploader.

Context {St : Type}.
Variable env : Env.
Variable svc : Service St.

Lemma uploadToDrive_directory (filename folderId : string)
      (target : option File) (name mimeType : string) (w : World St) :
  Lstat env filename = inr true ->
  uploadToDrive env svc filename folderId target name mimeType w
  = (inr tt, printed w [OutIsDirectory filename]).
Proof. intros Hdir. unfold uploadToDrive. now rewrite Hdir. Qed.

(** The overwrite resolver in front of the uploader makes its lookup and
    nothing else. *)
Lemma uploadFile_directory (filename folderId name mimeType : string)
      (overwriteFlag : bool) (w : World St) :
  Lstat env filename = inr true ->
  (overwriteFlag = true ->
   exists rFiles, list_do svc (nameQuery name) (remote w) = inr rFiles) ->
  exists w2,
    uploadFile env svc filename folderId name mimeType overwriteFlag w
    = (inr tt, w2)
    /\ remote w2 = remote w
    /\ writes (calls w2) = writes (calls w).
Proof.
  intros Hdir Hlist. unfold uploadFile, bind. rewrite say_run.
  destruct overwriteFlag.
  - destruct (Hlist eq_refl) as [rFiles Hr].
    unfold filesList. cbn [remote printed]. fold (nameQuery name).
    rewrite Hr, say_run.
    match goal with
    | |- context [findCurrentFile name folderId rFiles None ?w1] =>
        destruct (findCurrentFile_run name folderId rFiles None w1)
          as [out Hrun]; rewrite Hrun
    end.
    match goal with
    | |- context [match ?t with Some _ => _ | None => _ end] =>
        destruct t as [f|]
    end;
      rewrite say_run, uploadToDrive_directory by exact Hdir;
      eexists; (split; [reflexivity|]); simpl;
      (split; [reflexivity|]);
      unfold writes; rewrite filter_app; simpl; now rewrite app_nil_r.
  - rewrite uploadToDrive_directory by exact Hdir.
    eexists. repeat split.
Qed.

End Uploader.

(** C7: a matched path that is a directory is skipped by the uploader with
    a printed notice: [uploadToDrive] returns normally without any service
    call.  The turn of that path therefore adds no create or update call
    after its mirror steps, leaves the service as it was, and the loop goes
    on with the remaining files (when overwriting is on, provided the lookup
    that precedes the uploader answers). *)
Theorem directory_is_skipped :
  forall St (env : Env) (svc : Service St) (cfg : Config)
         (originalFolderId file : string) (rest : list string)
         (folderId : string) (w : World St),
    Lstat env file = inr true ->
    (forall fid target targetName mime (w1 : World St),
        uploadToDrive env svc file fid target targetName mime w1
        = (inr tt, printed w1 [OutIsDirectory file]))
    /\ (forall fid targetName (w1 : World St),
           (say (OutProcessing file) ;;
            mirrorFile svc cfg file originalFolderId) w = (inr fid, w1) ->
           resolveTargetName cfg file = inr targetName ->
           (overwriteFlag cfg = true ->
            exists rFiles,
              list_do svc (nameQuery targetName) (remote w1) = inr rFiles) ->
           exists w2,
             filesLoop env svc cfg originalFolderId (file :: rest) folderId w
             = filesLoop env svc cfg originalFolderId rest fid w2
             /\ remote w2 = remote w1
             /\ writes (calls w2) = writes (calls w1)).
Proof.
  intros St env svc cfg originalFolderId file rest folderId w Hdir.
  split.
  - intros fid target targetName mime w1.
    now apply uploadToDrive_directory.
  - intros fid targetName w1 Hpre Hname Hlist.
    unfold bind in Hpre. rewrite say_run in Hpre.
    destruct (uploadFile_directory env svc file fid targetName (mimeType cfg)
                (overwriteFlag cfg) w1 Hdir Hlist) as [w2 [Hup [Hrem Hwr]]].
    exists w2. split; [|split; assumption].
    cbn [filesLoop]. unfold processFile, processFrom.
    unfold bind at 1 2 3. rewrite say_run, Hpre, Hname.
    unfold bind at 1. now rewrite Hup.
Qed.

(** The glob matched the directory [logs] and the file [b.txt]: the turn of
    [logs] makes its lookup only and the loop goes on to [b.txt]. *)
Lemma directory_is_skipped_witness :
  Lstat dirRunner "logs" = inr true
  /\ (exists w2,
         filesLoop dirRunner memdrive.service dirConfig "R" ["logs"; "b.txt"] "R"
                   (memdrive.start [])
         = filesLoop dirRunner memdrive.service dirConfig "R" ["b.txt"] "R" w2
         /\ remote w2 = []
         /\ writes (calls w2) = [])
  /\ calls (snd (filesLoop dirRunner memdrive.service dirConfig "R"
                   ["logs"; "b.txt"] "R" (memdrive.start [])))
     = [FilesList (nameQuery "logs"); FilesList (nameQuery "b.txt");
        uploadCall None "R" "b.txt" "" "data"].
Proof.
  split; [reflexivity|]. split; [|reflexivity].
  exact (proj2 (directory_is_skipped memdrive.St dirRunner memdrive.service
                  dirConfig "R" "logs" ["b.txt"] "R" (memdrive.start [])
                  eq_refl)
           "R" "logs" (printed (memdrive.start []) [OutProcessing "logs"])
           eq_refl eq_refl (fun _ => ex_intro _ [] eq_refl)).
Defined.

(** ** Reading the inputs *)

Ltac split_inputs :=
  repeat match goal with
         | |- context [if String.eqb ?a ?b then _ else _] =>
             destruct (String.eqb a b) eqn:?
         | |- context [if Nat.eqb ?a ?b then _ else _] =>
             destruct (Nat.eqb a b) eqn:?
         | |- context [Glob ?e ?f] => destruct (Glob e f) eqn:?
         | |- context [match ?x with _ => _ end] => destruct x eqn:?
         end.

Ltac open_inputs :=
  unfold readInputs, readOverwriteFlag, readUseCompleteSourceFilenameAsNameFlag,
    readMirrorDirectoryStructureFlag, missingInput, bind, say, fatal, ret.

(** [readInputs] leaves the service and the record of calls as they were. *)
Lemma readInputs_frame {St} (env : Env) (w : World St) :
  remote (snd (readInputs env w)) = remote w
  /\ calls (snd (readInputs env w)) = calls w.
Proof. open_inputs. split_inputs; simpl; split; reflexivity. Qed.

Lemma readInputs_failure {St} (env : Env) (w : World St) (e : Fatal) :
  fst (readInputs env w) = inl e -> inputFailure e.
Proof.
  open_inputs. split_inputs; simpl; intros H; try discriminate;
    injection H as <-; exact I.
Qed.

(** A configuration is returned only when the three required inputs are not
    empty. *)
Lemma readInputs_required {St} (env : Env) (w w' : World St) (cfg : Config) :
  readInputs env w = (inr cfg, w') ->
  GetInput env filenameInput <> ""
  /\ GetInput env folderIdInput <> ""
  /\ GetInput env credentialsInput <> "".
Proof.
  open_inputs. split_inputs; simpl; intros H; try discriminate;
    repeat match goal with
           | H : String.eqb _ "" = false |- _ => apply String.eqb_neq in H
           end;
    repeat split; assumption.
Qed.

Lemma ParseBool_true (s : string) :
  fst (strconv.ParseBool s) = true <-> In s trueLiterals.
Proof.
  unfold strconv.ParseBool, trueLiterals.
  destruct (existsb (String.eqb s) ["1"; "t"; "T"; "true"; "TRUE"; "True"])
    eqn:Ht.
  - split; [intros _|reflexivity].
    apply existsb_exists in Ht as [x [Hin Heq]].
    apply String.eqb_eq in Heq. now subst x.
  - split.
    + destruct (existsb (String.eqb s) ["0"; "f"; "F"; "false"; "FALSE"; "False"]);
        simpl; discriminate.
    + intros Hin. exfalso.
      assert (existsb (String.eqb s) ["1"; "t"; "T"; "true"; "TRUE"; "True"]
              = true) as Hyes
          by (apply existsb_exists; exists s; split;
              [exact Hin | apply String.eqb_refl]).
      congruence.
Qed.

Lemma flagOf_true (s : string) : flagOf s = true <-> In s trueLiterals.
Proof.
  unfold flagOf. destruct (String.eqb_spec s "") as [->|_].
  - split; [discriminate|]. simpl. intuition discriminate.
  - apply ParseBool_true.
Qed.

(** X1: when one of the required inputs [filename], [folderId] or
    [credentials] is empty, [main] exits before its loop: the result is one
    of the exits of the input phase, and the service was neither called nor
    changed. *)
Theorem main_requires_inputs :
  forall St (env : Env) (svc : Service St) (w : World St),
    GetInput env filenameInput = ""
    \/ GetInput env folderIdInput = ""
    \/ GetInput env credentialsInput = "" ->
    exists e,
      fst (main env svc w) = inl e
      /\ inputFailure e
      /\ calls (snd (main env svc w)) = calls w
      /\ remote (snd (main env svc w)) = remote w.
Proof.
  intros St env svc w Hmissing.
  pose proof (readInputs_frame env w) as [Hrem Hcalls].
  pose proof (readInputs_failure env w) as Hfail.
  pose proof (readInputs_required env w) as Hok.
  unfold main, bind.
  destruct (readInputs env w) as [[e|cfg] w']; simpl in *.
  - exists e. repeat split; auto.
  - exfalso. destruct (Hok w' cfg eq_refl) as (Hf & Hid & Hc).
    destruct Hmissing as [H|[H|H]]; congruence.
Qed.

Lemma main_requires_inputs_witness :
  GetInput (inputRunner [("filename", "x.txt")]) folderIdInput = ""
  /\ exists e,
      fst (main (inputRunner [("filename", "x.txt")]) memdrive.service
             (memdrive.start [rootFile])) = inl e
      /\ inputFailure e
      /\ calls (snd (main (inputRunner [("filename", "x.txt")]) memdrive.service
                      (memdrive.start [rootFile]))) = []
      /\ remote (snd (main (inputRunner [("filename", "x.txt")]) memdrive.service
                       (memdrive.start [rootFile]))) = [rootFile].
Proof.
  split; [reflexivity|].
  exact (main_requires_inputs memdrive.St (inputRunner [("filename", "x.txt")])
           memdrive.service (memdrive.start [rootFile])
           (or_intror (or_introl eq_refl))).
Defined.

(** X2: a configuration that reaches the loop of [main] has at least one
    matched file, the files are the glob's matches for a non-empty pattern
    returned without error, the root folder id is the [folderId] input and
    is not empty, the credentials were not empty, and each flag is [true]
    only through [strconv.ParseBool] on a non-empty input. *)
Theorem readInputs_config :
  forall St (env : Env) (w w' : World St) (cfg : Config),
    readInputs env w = (inr cfg, w') ->
    GetInput env filenameInput <> ""
    /\ Glob env (GetInput env filenameInput) = (files cfg, None)
    /\ files cfg <> []
    /\ folderId cfg = GetInput env folderIdInput
    /\ folderId cfg <> ""
    /\ GetInput env credentialsInput <> ""
    /\ name cfg = GetInput env nameInput
    /\ mimeType cfg = GetInput env mimeTypeInput
    /\ filenamePrefix cfg = GetInput env namePrefixInput
    /\ overwriteFlag cfg = flagOf (GetInput env "overwrite")
    /\ useCompleteSourceFilenameAsNameFlag cfg
       = flagOf (GetInput env useCompleteSourceName)
    /\ mirrorDirectoryStructureFlag cfg
       = flagOf (GetInput env mirrorDirectoryStructure).
Proof.
  intros St env w w' cfg.
  unfold flagOf. open_inputs. split_inputs; simpl; intros H; try discriminate;
    injection H as <- <-; simpl;
    repeat match goal with
           | H : String.eqb _ "" = false |- _ => apply String.eqb_neq in H
           | H : String.eqb _ "" = true |- _ => apply String.eqb_eq in H
           | H : (List.length ?l =? 0)%nat = false |- _ =>
               apply Nat.eqb_neq in H
           end;
    repeat split; try assumption; try reflexivity; try congruence;
    try (intros ->; simpl in *; congruence).
Qed.

Lemma readInputs_config_witness :
  readInputs (inputRunner fullInputs) (memdrive.start [])
  = (inr fullConfig,
     snd (readInputs (inputRunner fullInputs) (memdrive.start [])))
  /\ files fullConfig <> []
  /\ folderId fullConfig <> ""
  /\ overwriteFlag fullConfig = flagOf "TRUE".
Proof.
  assert (readInputs (inputRunner fullInputs) (memdrive.start [])
          = (inr fullConfig,
             snd (readInputs (inputRunner fullInputs) (memdrive.start []))))
    as Hrun by reflexivity.
  split; [exact Hrun|].
  destruct (readInputs_config memdrive.St (inputRunner fullInputs)
              (memdrive.start []) _ fullConfig Hrun)
    as (_ & _ & Hfiles & _ & Hid & _ & _ & _ & _ & Hflag & _).
  repeat split; assumption.
Defined.

(** X3: the flag read from each of the three boolean inputs is [true]
    exactly when the input is one of [1], [t], [T], [true], [TRUE], [True];
    every other value, the empty one included, gives [false]. *)
Theorem flag_true_iff_literal :
  forall St (env : Env) (w : World St),
    (fst (readOverwriteFlag env w) = inr true
     <-> In (GetInput env "overwrite") trueLiterals)
    /\ (fst (readUseCompleteSourceFilenameAsNameFlag env w) = inr true
        <-> In (GetInput env useCompleteSourceName) trueLiterals)
    /\ (fst (readMirrorDirectoryStructureFlag env w) = inr true
        <-> In (GetInput env mirrorDirectoryStructure) trueLiterals).
Proof.
  intros St env w.
  unfold readOverwriteFlag, readUseCompleteSourceFilenameAsNameFlag,
    readMirrorDirectoryStructureFlag.
  repeat split;
    match goal with
    | |- context [GetInput env ?k] =>
        pose proof (flagOf_true (GetInput env k)) as [Hto Hfrom];
        unfold flagOf in Hto, Hfrom;
        destruct (String.eqb (GetInput env k) "")
    end; simpl; intros H;
    try (apply Hto; congruence);
    try (f_equal; now apply Hfrom);
    try discriminate.
Qed.

(** X4: whenever the input phase gets past the [credentials] check, the
    raw credentials input was handed to [AddMask]; when it succeeds
    the decoded credentials, less one trailing newline, were handed to it
    as well.  The only exits after the check are the base64 and the JWT
    ones. *)
Theorem credentials_masked :
  forall St (env : Env) (w : World St),
    (forall cfg,
        fst (readInputs env w) = inr cfg ->
        In (OutAddMask (GetInput env credentialsInput))
           (output (snd (readInputs env w)))
        /\ exists decoded,
            DecodeString env (GetInput env credentialsInput) = inr decoded
            /\ In (OutAddMask (strings.TrimSuffix decoded (String "010"%char "")))
                  (output (snd (readInputs env w))))
    /\ (forall err,
           fst (readInputs env w) = inl (Base64Failed err)
           \/ fst (readInputs env w) = inl (JWTFailed err) ->
           In (OutAddMask (GetInput env credentialsInput))
              (output (snd (readInputs env w)))).
Proof.
  intros St env w. split.
  - intros cfg. open_inputs. split_inputs; simpl; intros H; try discriminate;
      (split; [|eexists; split; [reflexivity|]]);
      rewrite ?in_app_iff; simpl; tauto.
  - intros err. open_inputs. split_inputs; simpl; intros [H|H];
      try discriminate; rewrite ?in_app_iff; simpl; tauto.
Qed.

Lemma credentials_masked_witness :
  fst (readInputs (inputRunner fullInputs) (memdrive.start []))
  = inr fullConfig
  /\ In (OutAddMask "e30=")
        (output (snd (readInputs (inputRunner fullInputs) (memdrive.start []))))
  /\ In (OutAddMask (strings.TrimSuffix ("e30=" ++ String "010"%char "")
                       (String "010"%char "")))
        (output (snd (readInputs (inputRunner fullInputs) (memdrive.start [])))).
Proof.
  split; [reflexivity|].
  destruct (proj1 (credentials_masked memdrive.St (inputRunner fullInputs)
                     (memdrive.start [])) _ eq_refl)
    as [Hraw [decoded [Hdec Hmask]]].
  split; [exact Hraw|].
  injection Hdec as <-. exact Hmask.
Defined.

(** ** Uploader and overwrite resolver: calls and exits *)

Section Calls.

Context {St : Type}.
Variable env : Env.
Variable svc : Service St.

Lemma uploadToDrive_calls_any (filename folderId : string)
      (target : option File) (name mimeType : string) (w : World St) :
  calls (snd (uploadToDrive env svc filename folderId target name mimeType w))
  = (calls w ++ uploadCalls env filename target folderId name mimeType)%list.
Proof.
  unfold uploadToDrive, uploadCalls.
  destruct (Lstat env filename) as [err|[|]]; simpl;
    try (now rewrite app_nil_r).
  destruct (Open env filename) as [err|media]; simpl;
    [now rewrite app_nil_r|].
  unfold bind, uploadCall. destruct target as [d|].
  - unfold filesUpdate.
    destruct (update_do svc _ _ _ _ _) as [err|[d' st]]; reflexivity.
  - unfold filesCreate.
    destruct (create_do svc _ _ _) as [err|[d' st]]; reflexivity.
Qed.

Lemma uploadToDrive_exit (filename folderId : string)
      (target : option File) (name mimeType : string) (w : World St) (e : Fatal) :
  fst (uploadToDrive env svc filename folderId target name mimeType w) = inl e ->
  (exists err, e = LstatFailed filename err /\ Lstat env filename = inl err)
  \/ (exists err, e = OpenFailed filename err /\ Lstat env filename = inr false
                  /\ Open env filename = inl err)
  \/ (exists err media, e = UploadFailed err /\ Lstat env filename = inr false
                        /\ Open env filename = inr media).
Proof.
  unfold uploadToDrive.
  destruct (Lstat env filename) as [err|[|]]; simpl.
  - intros [= <-]. left. now exists err.
  - discriminate.
  - destruct (Open env filename) as [err|media]; simpl.
    + intros [= <-]. right; left. now exists err.
    + unfold bind. destruct target as [d|].
      * unfold filesUpdate.
        destruct (update_do svc _ _ _ _ _) as [err|[d' st]]; simpl;
          [|discriminate].
        intros [= <-]. right; right. now exists err, media.
      * unfold filesCreate.
        destruct (create_do svc _ _ _) as [err|[d' st]]; simpl;
          [|discriminate].
        intros [= <-]. right; right. now exists err, media.
Qed.

End Calls.

(** X5: with overwriting off, [uploadFile] never looks anything up and never
    updates: the only call it can make is one create, with the target name,
    the mime type and the target folder as only parent, and it makes it
    exactly when the local path is a regular file that opens. *)
Theorem uploadFile_without_overwrite :
  forall St (env : Env) (svc : Service St)
         (filename folderId name mimeType : string) (w : World St),
    calls (snd (uploadFile env svc filename folderId name mimeType false w))
    = (calls w
       ++ match Lstat env filename, Open env filename with
          | inr false, inr media =>
              [FilesCreate {| Id := ""; Name := name; MimeType := mimeType;
                              Parents := [folderId] |} (Some media)]
          | _, _ => []
          end)%list.
Proof.
  intros St env svc filename folderId name mimeType w.
  unfold uploadFile, bind. rewrite say_run.
  rewrite uploadToDrive_calls_any. unfold uploadCalls, uploadCall.
  now destruct (Lstat env filename) as [err|[|]];
    destruct (Open env filename) as [err'|media].
Qed.

(** X6: [uploadToDrive] exits for three reasons only: the lstat of the local
    path failed, the path is a regular file that could not be opened, or the
    one create or update call failed.  In the first two cases no service
    call was made. *)
Theorem uploadToDrive_exits :
  forall St (env : Env) (svc : Service St)
         (filename folderId : string) (target : option File)
         (name mimeType : string) (w : World St) (e : Fatal),
    fst (uploadToDrive env svc filename folderId target name mimeType w) = inl e ->
    (exists err,
        e = LstatFailed filename err
        /\ calls (snd (uploadToDrive env svc filename folderId target name
                         mimeType w)) = calls w)
    \/ (exists err,
           e = OpenFailed filename err
           /\ calls (snd (uploadToDrive env svc filename folderId target name
                            mimeType w)) = calls w)
    \/ (exists err media,
           e = UploadFailed err
           /\ calls (snd (uploadToDrive env svc filename folderId target name
                            mimeType w))
              = (calls w ++ [uploadCall target folderId name mimeType media])%list).
Proof.
  intros St env svc filename folderId target name mimeType w e Hexit.
  rewrite uploadToDrive_calls_any. unfold uploadCalls.
  destruct (uploadToDrive_exit env svc filename folderId target name mimeType
              w e Hexit)
    as [[err [-> Hl]]|[[err [-> [Hl Ho]]]|[err [media [-> [Hl Ho]]]]]].
  - left. exists err. rewrite Hl. now rewrite app_nil_r.
  - right; left. exists err. rewrite Hl, Ho. now rewrite app_nil_r.
  - right; right. exists err, media. now rewrite Hl, Ho.
Qed.

Lemma uploadToDrive_exits_witness :
  fst (uploadToDrive emptyDisk memdrive.service "x.txt" "R" None "x.txt" ""
         (memdrive.start []))
  = inl (LstatFailed "x.txt" "no such file or directory")
  /\ calls (snd (uploadToDrive emptyDisk memdrive.service "x.txt" "R" None
                   "x.txt" "" (memdrive.start []))) = [].
Proof.
  split; [reflexivity|].
  destruct (uploadToDrive_exits memdrive.St emptyDisk memdrive.service "x.txt"
              "R" None "x.txt" "" (memdrive.start []) _ eq_refl)
    as [[err [_ H]]|[[err [H _]]|[err [media [H _]]]]];
    [exact H | discriminate H | discriminate H].
Defined.

(** X7: a failing lookup ends the run without any create or update: in
    [createDriveDirectory] no folder is created, and in [uploadFile] with
    overwriting on nothing is uploaded. *)
Theorem lookup_failure_is_fatal :
  forall St (env : Env) (svc : Service St)
         (filename folderId name mimeType : string) (w : World St) (err : error),
    (list_do svc (folderQuery name) (remote w) = inl err ->
     fst (createDriveDirectory svc folderId name w) = inl (CheckFolderFailed err)
     /\ calls (snd (createDriveDirectory svc folderId name w))
        = (calls w ++ [FilesList (folderQuery name)])%list)
    /\ (list_do svc (nameQuery name) (remote w) = inl err ->
        fst (uploadFile env svc filename folderId name mimeType true w)
        = inl (RetrieveFilesFailed err)
        /\ calls (snd (uploadFile env svc filename folderId name mimeType true w))
           = (calls w ++ [FilesList (nameQuery name)])%list).
Proof.
  intros St env svc filename folderId name mimeType w err. split; intros Hlist.
  - unfold createDriveDirectory, bind. rewrite say_run. unfold filesList.
    cbn [remote printed].
    change ("name='" ++ name ++ "'" ++ " and mimeType='application/vnd.google-apps.folder'")
      with (folderQuery name).
    rewrite Hlist. split; reflexivity.
  - unfold uploadFile, bind. rewrite say_run. unfold filesList.
    cbn [remote printed]. fold (nameQuery name).
    rewrite Hlist. split; reflexivity.
Qed.

Lemma lookup_failure_is_fatal_witness :
  list_do offline (folderQuery "a") [] = inl "offline"
  /\ fst (createDriveDirectory offline "R" "a" (memdrive.start []))
     = inl (CheckFolderFailed "offline")
  /\ calls (snd (createDriveDirectory offline "R" "a" (memdrive.start [])))
     = [FilesList (folderQuery "a")].
Proof.
  split; [reflexivity|].
  exact (proj1 (lookup_failure_is_fatal memdrive.St plainRunner offline "x.txt"
                  "R" "a" "" (memdrive.start []) "offline") eq_refl).
Defined.

(** X8: the first file whose turn exits ends the whole run: when the turns
    of the files before it returned and its own turn exits, the loop exits
    with that very result and world, and the files after it are never
    looked at. *)
Theorem filesLoop_fail_fast :
  forall St (env : Env) (svc : Service St) (cfg : Config)
         (originalFolderId : string) (pre : list string) (file : string)
         (post : list string) (folderId : string) (w w1 w2 : World St)
         (e : Fatal),
    filesLoop env svc cfg originalFolderId pre folderId w = (inr tt, w1) ->
    processFrom env svc cfg originalFolderId file w1 = (inl e, w2) ->
    filesLoop env svc cfg originalFolderId (pre ++ file :: post) folderId w
    = (inl e, w2).
Proof.
  intros St env svc cfg originalFolderId pre file post folderId w w1 w2 e
         Hpre Hfile.
  rewrite filesLoop_app. unfold bind. now rewrite Hpre, Hfile.
Qed.

Lemma filesLoop_fail_fast_witness :
  fst (filesLoop plainRunner memdrive.service emptyNameConfig "R"
         (["a.txt"] ++ "" :: ["b.txt"]) "R" (memdrive.start []))
  = inl NoTargetName
  /\ calls (snd (filesLoop plainRunner memdrive.service emptyNameConfig "R"
                   (["a.txt"] ++ "" :: ["b.txt"]) "R" (memdrive.start [])))
     = [uploadCall None "R" "a.txt" "" "data"].
Proof.
  rewrite (filesLoop_fail_fast memdrive.St plainRunner memdrive.service
             emptyNameConfig "R" ["a.txt"] "" ["b.txt"] "R" (memdrive.start [])
             (snd (filesLoop plainRunner memdrive.service emptyNameConfig "R"
                     ["a.txt"] "R" (memdrive.start [])))
             (snd (processFrom plainRunner memdrive.service emptyNameConfig "R"
                     ""
                     (snd (filesLoop plainRunner memdrive.service
                             emptyNameConfig "R" ["a.txt"] "R"
                             (memdrive.start [])))))
             NoTargetName eq_refl eq_refl).
  split; reflexivity.
Defined.

(** X9: the object the overwrite loop selects is always one of the listed
    objects and always has exactly the target name; the loop selects none
    only when no listed object has that name. *)
Theorem findCurrentFile_selects_same_name :
  forall St (name folderId : string) (fs : list File) (w : World St),
    (forall f,
        fst (findCurrentFile name folderId fs None w) = inr (Some f) ->
        In f fs /\ Name f = name)
    /\ (fst (findCurrentFile name folderId fs None w) = inr None ->
        forall g, In g fs -> Name g <> name).
Proof.
  intros St name folderId fs w.
  destruct (findCurrentFile_run name folderId fs None w) as [out Hrun].
  rewrite Hrun. simpl. split.
  - intros f Hf.
    destruct (find (fun i => sameName name i && inFolder folderId i) fs)
      as [i|] eqn:Hfind.
    + injection Hf as <-. apply find_some in Hfind as [Hin Hb].
      apply andb_prop in Hb as [Hn _]. apply String.eqb_eq in Hn.
      split; [exact Hin | now symmetry].
    + injection Hf as Hlast.
      assert (In (Some f) (map Some (filter (sameName name) fs))) as Hin.
      { destruct (map Some (filter (sameName name) fs)) as [|x l] eqn:Hl;
          [discriminate|].
        rewrite <- Hlast.
        destruct (@exists_last _ (x :: l)) as [l' [y Hy]]; [discriminate|].
        rewrite Hy. rewrite last_last. apply in_or_app. right. now left. }
      apply in_map_iff in Hin as [g [[= ->] Hg]].
      apply filter_In in Hg as [Hin Hn]. apply String.eqb_eq in Hn.
      split; [exact Hin | now symmetry].
  - intros Hnone g Hg Hname.
    destruct (find (fun i => sameName name i && inFolder folderId i) fs)
      as [i|] eqn:Hfind; [discriminate|].
    injection Hnone as Hlast.
    assert (In g (filter (sameName name) fs)) as Hin
        by (apply filter_In; split; [exact Hg|];
            unfold sameName; rewrite Hname; apply String.eqb_refl).
    destruct (filter (sameName name) fs) as [|x l] eqn:Hl; [contradiction|].
    destruct (@exists_last _ (x :: l)) as [l' [y Hy]]; [discriminate|].
    rewrite Hy, map_app in Hlast. simpl in Hlast.
    rewrite last_last in Hlast. discriminate.
Qed.

Lemma findCurrentFile_selects_same_name_witness :
  fst (findCurrentFile "x.txt" "R" [strayFile] None (memdrive.start []))
  = inr (Some strayFile)
  /\ In strayFile [strayFile] /\ Name strayFile = "x.txt".
Proof.
  split; [reflexivity|].
  exact (proj1 (findCurrentFile_selects_same_name memdrive.St "x.txt" "R"
                  [strayFile] (memdrive.start [])) strayFile eq_refl).
Defined.

(** ** Path segments *)

Lemma append_nil_r (s : string) : s ++ "" = s.
Proof. induction s as [|c s IH]; simpl; [reflexivity | now rewrite IH]. Qed.

Lemma append_assoc (a b c : string) : (a ++ b) ++ c = a ++ (b ++ c).
Proof. induction a as [|x a IH]; simpl; [reflexivity | now rewrite IH]. Qed.

Lemma noSeparator_nil : noSeparator "".
Proof. intros i c H. destruct i; discriminate H. Qed.

Lemma noSeparator_cons (c : ascii) (s : string) :
  noSeparator (String c s)
  <-> filepath.IsPathSeparator c = false /\ noSeparator s.
Proof.
  split.
  - intros H. split; [exact (H 0 c eq_refl)|].
    intros i d Hd. exact (H (S i) d Hd).
  - intros [Hc Hs] [|i] d Hd; simpl in Hd.
    + now injection Hd as <-.
    + exact (Hs i d Hd).
Qed.

Lemma noSeparator_app (a b : string) :
  noSeparator a -> noSeparator b -> noSeparator (a ++ b).
Proof.
  induction a as [|c a IH]; simpl; intros Ha Hb; [exact Hb|].
  apply noSeparator_cons in Ha as [Hc Ha].
  apply noSeparator_cons. split; [exact Hc | now apply IH].
Qed.

Lemma splitFrom_nonempty (sep : ascii) (s : string) :
  forall cur, strings.splitFrom sep cur s <> [].
Proof.
  induction s as [|c s IH]; intros cur; simpl; [discriminate|].
  destruct (Ascii.eqb c sep); [discriminate | apply IH].
Qed.

Lemma splitFrom_concat (sep : ascii) (s : string) :
  forall cur,
    String.concat (String sep "") (strings.splitFrom sep cur s) = cur ++ s.
Proof.
  induction s as [|c s IH]; intros cur; simpl.
  - now rewrite append_nil_r.
  - destruct (Ascii.eqb_spec c sep) as [->|Hne].
    + pose proof (splitFrom_nonempty sep s "") as Hne.
      specialize (IH ""). simpl in IH.
      destruct (strings.splitFrom sep "" s) as [|x l]; [contradiction|].
      cbn [String.concat]. cbn [String.concat] in IH. now rewrite IH.
    + rewrite IH, append_assoc. reflexivity.
Qed.

Lemma splitFrom_noSeparator (s : string) :
  forall cur seg,
    noSeparator cur ->
    In seg (strings.splitFrom filepath.Separator cur s) ->
    noSeparator seg.
Proof.
  induction s as [|c s IH]; intros cur seg Hcur Hin; simpl in Hin.
  - destruct Hin as [<-|[]]. exact Hcur.
  - destruct (Ascii.eqb c filepath.Separator) eqn:Hc.
    + destruct Hin as [<-|Hin]; [exact Hcur|].
      exact (IH "" seg noSeparator_nil Hin).
    + apply (IH (cur ++ String c "") seg); [|exact Hin].
      apply noSeparator_app; [exact Hcur|].
      apply noSeparator_cons. split; [exact Hc | exact noSeparator_nil].
Qed.

(** X10: [strings.Split] on the path separator, as the mirror uses it, cuts
    a directory path into segments without losing anything: there is at
    least one segment, no segment contains a separator, and joining the
    segments with the separator gives the path back. *)
Theorem Split_segments :
  forall path : string,
    strings.Split path filepath.Separator <> []
    /\ (forall seg,
           In seg (strings.Split path filepath.Separator) -> noSeparator seg)
    /\ String.concat (String filepath.Separator "")
         (strings.Split path filepath.Separator) = path.
Proof.
  intros path. unfold strings.Split. repeat split.
  - apply splitFrom_nonempty.
  - intros seg. apply splitFrom_noSeparator. exact noSeparator_nil.
  - apply splitFrom_concat.
Qed.

(** ** Directory mirror: the calls of a whole path *)

Section MirrorCalls.

Context {St : Type}.
Variable svc : Service St.


End MirrorCalls.



(** X12: with mirroring on, the turn of every file, whatever its path, runs
    at least one mirror step, and the first one looks the first segment of
    the file's directory up under the root folder: the folder id handed to
    the upload always comes out of a mirror step. *)
Theorem mirrorFile_first_step :
  forall St (svc : Service St) (cfg : Config) (file R : string),
    mirrorDirectoryStructureFlag cfg = true ->
    exists seg rest,
      strings.Split (filepath.Dir file) filepath.Separator = seg :: rest
      /\ forall w : World St,
          mirrorFile svc cfg file R w
          = (say (OutMirroring (seg :: rest)) ;;
             id <- createDriveDirectory svc R seg ;;
             mirrorLoop svc rest id) w.
Proof.
  intros St svc cfg file R Hflag.
  destruct (strings.Split (filepath.Dir file) filepath.Separator)
    as [|seg rest] eqn:Hsplit.
  - now apply (splitFrom_nonempty filepath.Separator) in Hsplit.
  - exists seg, rest. split; [reflexivity|]. intros w.
    unfold mirrorFile. now rewrite Hflag, Hsplit.
Qed.

Lemma mirrorFile_first_step_witness :
  mirrorDirectoryStructureFlag (mirrorConfig ["logs/2024/run.txt"]) = true
  /\ exists seg rest,
      strings.Split (filepath.Dir "logs/2024/run.txt") filepath.Separator
      = seg :: rest
      /\ forall w : World memdrive.St,
          mirrorFile memdrive.service (mirrorConfig ["logs/2024/run.txt"])
                     "logs/2024/run.txt" "R" w
          = (say (OutMirroring (seg :: rest)) ;;
             id <- createDriveDirectory memdrive.service "R" seg ;;
             mirrorLoop memdrive.service rest id) w.
Proof.
  split; [reflexivity|].
  exact (mirrorFile_first_step memdrive.St memdrive.service
           (mirrorConfig ["logs/2024/run.txt"]) "logs/2024/run.txt" "R" eq_refl).
Defined.

(** ** Base names *)





Lemma chooseTargetName_nonempty (cfg : Config) (file : string) :
  file <> "" -> chooseTargetName cfg file <> "".
Proof.
  intros Hfile. unfold chooseTargetName.
  destruct (useCompleteSourceFilenameAsNameFlag cfg); [exact Hfile|].
  destruct (useSourceFilename cfg); simpl; [apply Base_nonempty|].
  destruct (String.eqb_spec (name cfg) ""); [apply Base_nonempty | assumption].
Qed.

Lemma resolveTargetName_nonempty (cfg : Config) (file : string) :
  chooseTargetName cfg file <> "" ->
  resolveTargetName cfg file = inr (nameAfterAllRules cfg file)
  /\ nameAfterAllRules cfg file <> "".
Proof.
  intros Hne. unfold resolveTargetName, checkTargetName, nameAfterAllRules.
  destruct (String.eqb_spec (chooseTargetName cfg file) "") as [H|_];
    [contradiction|].
  destruct (String.eqb_spec (filenamePrefix cfg) "") as [_|Hp]; simpl.
  - split; [reflexivity | exact Hne].
  - split; [reflexivity|].
    destruct (filenamePrefix cfg); [contradiction | discriminate].
Qed.



(** X14: a name that the resolver returns is never empty, and the resolver
    fails in one case only: the full-source-name flag is on and the matched
    path is the empty string.  The failure is the missing-name exit. *)
Theorem resolveTargetName_outcome :
  forall (cfg : Config) (file : string),
    (forall targetName,
        resolveTargetName cfg file = inr targetName -> targetName <> "")
    /\ (forall e,
           resolveTargetName cfg file = inl e ->
           e = NoTargetName
           /\ useCompleteSourceFilenameAsNameFlag cfg = true
           /\ file = "").
Proof.
  intros cfg file.
  destruct (String.eqb_spec (chooseTargetName cfg file) "") as [Hempty|Hne].
  - split.
    + unfold resolveTargetName, checkTargetName. rewrite Hempty. discriminate.
    + intros e. unfold resolveTargetName, checkTargetName. rewrite Hempty.
      simpl. intros [= <-]. split; [reflexivity|].
      destruct (String.eqb_spec file "") as [->|Hfile].
      * split; [|reflexivity].
        unfold chooseTargetName in Hempty.
        destruct (useCompleteSourceFilenameAsNameFlag cfg); [reflexivity|].
        exfalso. revert Hempty.
        destruct (useSourceFilename cfg); simpl; [apply Base_nonempty|].
        destruct (String.eqb_spec (name cfg) "");
          [apply Base_nonempty | assumption].
      * now apply (chooseTargetName_nonempty cfg) in Hfile.
  - destruct (resolveTargetName_nonempty cfg file Hne) as [Hres Hname].
    rewrite Hres. split; [now intros t [= <-] | discriminate].
Qed.

Lemma resolveTargetName_outcome_witness :
  resolveTargetName emptyNameConfig "" = inl NoTargetName
  /\ useCompleteSourceFilenameAsNameFlag emptyNameConfig = true.
Proof.
  split; [reflexivity|].
  exact (proj1 (proj2 (proj2 (resolveTargetName_outcome emptyNameConfig "")
                         NoTargetName eq_refl))).
Defined.

(** X15: when at most one file matched, the full-source-name flag is off and
    a name is configured, the resolved target name is the configured name,
    with the name prefix prepended when it is not empty; the file's own name
    plays no part. *)
Theorem resolveTargetName_single :
  forall (cfg : Config) (file : string),
    List.length (files cfg) <= 1 ->
    useCompleteSourceFilenameAsNameFlag cfg = false ->
    name cfg <> "" ->
    resolveTargetName cfg file
    = inr (if String.eqb (filenamePrefix cfg) "" then name cfg
           else filenamePrefix cfg ++ name cfg).
Proof.
  intros cfg file Hone Hflag Hname.
  unfold resolveTargetName, chooseTargetName, checkTargetName, useSourceFilename.
  rewrite Hflag.
  destruct (Nat.ltb_spec 1 (List.length (files cfg))); [lia|].
  destruct (String.eqb_spec (name cfg) "") as [Hn|_]; [contradiction|]. simpl.
  destruct (String.eqb_spec (name cfg) "") as [Hn|_]; [contradiction|].
  now destruct (String.eqb (filenamePrefix cfg) "").
Qed.

Lemma resolveTargetName_single_witness :
  List.length (files (singleConfig "p-")) <= 1
  /\ resolveTargetName (singleConfig "p-") "d/report.pdf" = inr "p-Report".
Proof.
  split; [simpl; lia|].
  apply (resolveTargetName_single (singleConfig "p-") "d/report.pdf");
    [simpl; lia | reflexivity | discriminate].
Defined.

(** ** Credentials *)

Lemma substring_whole (s : string) : substring 0 (String.length s) s = s.
Proof. induction s as [|c s IH]; simpl; [reflexivity | now rewrite IH]. Qed.

Lemma substring_app_l (s t : string) :
  substring 0 (String.length s) (s ++ t) = s.
Proof.
  induction s as [|c s IH]; simpl; [now destruct t | now rewrite IH].
Qed.

Lemma substring_app_r (s t : string) :
  substring (String.length s) (String.length t) (s ++ t) = t.
Proof. induction s as [|c s IH]; simpl; [apply substring_whole | exact IH]. Qed.

Lemma length_append (s t : string) :
  String.length (s ++ t) = String.length s + String.length t.
Proof. induction s as [|c s IH]; simpl; [reflexivity | now rewrite IH]. Qed.

(** [strings.TrimSuffix], which [main] applies to the decoded
    credentials with a newline as suffix, gives back what stands before the
    suffix: a document followed by one newline is handed on without it. *)
Theorem TrimSuffix_append :
  forall s suffix : string, strings.TrimSuffix (s ++ suffix) suffix = s.
Proof.
  intros s suffix. unfold strings.TrimSuffix.
  rewrite length_append.
  replace (String.length s + String.length suffix - String.length suffix)
    with (String.length s) by lia.
  rewrite substring_app_r, substring_app_l, String.eqb_refl.
  destruct (Nat.leb_spec (String.length suffix)
              (String.length s + String.length suffix)); [reflexivity | lia].
Qed.

(** ** The calls of a whole run *)

Section RunCalls.

Context {St : Type}.
Variable env : Env.
Variable svc : Service St.

Lemma uploadCalls_shape (filename : string) (target : option File)
      (folderId name mimeType : string) :
  Forall (aimedAt folderId)
         (uploadCalls env filename target folderId name mimeType)
  /\ List.length (uploadCalls env filename target folderId name mimeType) <= 1.
Proof.
  unfold uploadCalls.
  destruct (Lstat env filename) as [err|[|]]; simpl;
    try (split; [apply Forall_nil|lia]).
  destruct (Open env filename) as [err|media]; simpl;
    [split; [apply Forall_nil|lia]|].
  split; [|lia]. apply Forall_cons; [|apply Forall_nil].
  destruct target; simpl; [reflexivity | split; [reflexivity | discriminate]].
Qed.

(** The calls of [uploadFile], whatever happens: at most one lookup, then at
    most one create or update, aimed at the folder it was given. *)
Lemma uploadFile_calls_any (filename folderId name mimeType : string)
      (flag : bool) (w : World St) :
  exists cs,
    calls (snd (uploadFile env svc filename folderId name mimeType flag w))
    = (calls w ++ cs)%list
    /\ Forall (aimedAt folderId) cs
    /\ List.length (writes cs) <= 1.
Proof.
  unfold uploadFile, bind. rewrite say_run. destruct flag.
  - unfold filesList. cbn [remote printed].
    destruct (list_do svc _ (remote w)) as [err|rFiles].
    + exists [FilesList ("name='" ++ name ++ "'")]. simpl.
      repeat split; [repeat constructor | lia].
    + rewrite say_run.
      match goal with
      | |- context [findCurrentFile name folderId rFiles None ?w1] =>
          destruct (findCurrentFile_run name folderId rFiles None w1)
            as [out Hrun]; rewrite Hrun
      end.
      match goal with
      | |- context [match ?t with Some _ => _ | None => _ end] =>
          set (target := t)
      end.
      destruct (uploadCalls_shape filename target folderId name mimeType)
        as [Haim Hlen].
      exists (FilesList ("name='" ++ name ++ "'")
              :: uploadCalls env filename target folderId name mimeType).
      assert (List.length
                (writes (uploadCalls env filename target folderId name mimeType))
              <= 1) as Hw
          by (etransitivity; [apply filter_length_le | exact Hlen]).
      destruct target as [f|]; rewrite say_run, uploadToDrive_calls_any;
        simpl; rewrite <- app_assoc; simpl;
        (split; [reflexivity|]); (split; [constructor; [exact I|exact Haim]|]);
        exact Hw.
  - rewrite uploadToDrive_calls_any.
    destruct (uploadCalls_shape filename None folderId name mimeType)
      as [Haim Hlen].
    eexists. split; [reflexivity|]. split; [exact Haim|].
    etransitivity; [apply filter_length_le | exact Hlen].
Qed.

Variable cfg : Config.
Variable originalFolderId : string.




(** With mirroring off, every call of a turn is aimed at the root. *)
Lemma processFrom_aimed (file : string) (w : World St) :
  mirrorDirectoryStructureFlag cfg = false ->
  exists cs,
    calls (snd (processFrom env svc cfg originalFolderId file w))
    = (calls w ++ cs)%list
    /\ Forall (aimedAt originalFolderId) cs.
Proof.
  intros Hflag. unfold processFrom, mirrorFile, bind. rewrite say_run, Hflag.
  cbn [ret].
  destruct (resolveTargetName cfg file) as [e|targetName]; simpl.
  - exists []. now rewrite app_nil_r.
  - destruct (uploadFile_calls_any file originalFolderId targetName
                (mimeType cfg) (overwriteFlag cfg)
                (printed w [OutProcessing file])) as [cs [Hcs [Haim _]]].
    exists cs. split; [|exact Haim].
    destruct (uploadFile env svc file originalFolderId targetName
                (mimeType cfg) (overwriteFlag cfg)
                (printed w [OutProcessing file])) as [[e|[]] w2];
      simpl in Hcs |- *; exact Hcs.
Qed.

Lemma filesLoop_aimed (fs : list string) :
  mirrorDirectoryStructureFlag cfg = false ->
  forall folderId (w : World St),
  exists cs,
    calls (snd (filesLoop env svc cfg originalFolderId fs folderId w))
    = (calls w ++ cs)%list
    /\ Forall (aimedAt originalFolderId) cs.
Proof.
  intros Hflag. induction fs as [|file fs IH]; intros folderId w; simpl.
  - exists []. now rewrite app_nil_r.
  - unfold bind, processFile.
    destruct (processFrom_aimed file w Hflag) as [cs1 [Hc1 Ha1]].
    destruct (processFrom env svc cfg originalFolderId file w) as [[e|fid] w1];
      simpl in Hc1 |- *; [now exists cs1|].
    destruct (IH fid w1) as [cs2 [Hc2 Ha2]].
    exists (cs1 ++ cs2)%list. rewrite Hc2, Hc1, app_assoc.
    split; [reflexivity | now apply Forall_app].
Qed.

(** A plain turn: no mirroring, no overwriting, a regular file that opens
    and a service that creates. *)
Lemma processFrom_plain (file media : string) (w : World St) :
  mirrorDirectoryStructureFlag cfg = false ->
  overwriteFlag cfg = false ->
  file <> "" ->
  Lstat env file = inr false ->
  Open env file = inr media ->
  (forall f m st, exists d st', create_do svc f m st = inr (d, st')) ->
  exists w',
    processFrom env svc cfg originalFolderId file w = (inr originalFolderId, w')
    /\ calls w'
       = (calls w
          ++ [FilesCreate {| Id := ""; Name := nameAfterAllRules cfg file;
                             MimeType := mimeType cfg;
                             Parents := [originalFolderId] |}
                          (Some media)])%list.
Proof.
  intros Hmirror Hover Hfile Hstat Hopen Hcreate.
  unfold processFrom, mirrorFile, bind. rewrite say_run, Hmirror. cbn [ret].
  destruct (resolveTargetName_nonempty cfg file
              (chooseTargetName_nonempty cfg file Hfile)) as [Hres _].
  rewrite Hres, Hover.
  unfold uploadFile, bind. rewrite say_run.
  unfold uploadToDrive. rewrite Hstat, Hopen.
  unfold bind, filesCreate. cbn [remote printed].
  destruct (Hcreate {| Id := ""; Name := nameAfterAllRules cfg file;
                       MimeType := mimeType cfg;
                       Parents := [originalFolderId] |}
                    (Some media) (remote w)) as [d [st' Hd]].
  rewrite Hd. simpl. eexists. split; reflexivity.
Qed.

Lemma filesLoop_plain (media : string -> string) (fs : list string) :
  mirrorDirectoryStructureFlag cfg = false ->
  overwriteFlag cfg = false ->
  (forall f m st, exists d st', create_do svc f m st = inr (d, st')) ->
  (forall file,
      In file fs ->
      file <> "" /\ Lstat env file = inr false
      /\ Open env file = inr (media file)) ->
  forall folderId (w : World St),
    fst (filesLoop env svc cfg originalFolderId fs folderId w) = inr tt
    /\ calls (snd (filesLoop env svc cfg originalFolderId fs folderId w))
       = (calls w
          ++ map (fun file =>
                    FilesCreate {| Id := ""; Name := nameAfterAllRules cfg file;
                                   MimeType := mimeType cfg;
                                   Parents := [originalFolderId] |}
                                (Some (media file))) fs)%list.
Proof.
  intros Hmirror Hover Hcreate.
  induction fs as [|file fs IH]; intros Hfiles folderId w; simpl.
  - now rewrite app_nil_r.
  - destruct (Hfiles file (or_introl eq_refl)) as (Hne & Hstat & Hopen).
    destruct (processFrom_plain file (media file) w
                Hmirror Hover Hne Hstat Hopen Hcreate) as [w1 [Hrun Hcalls]].
    unfold bind, processFile. rewrite Hrun.
    destruct (IH (fun f Hf => Hfiles f (or_intror Hf)) originalFolderId w1)
      as [Hres Hrest].
    split; [exact Hres|].
    rewrite Hrest, Hcalls, <- app_assoc. reflexivity.
Qed.

End RunCalls.

(** X16: a run without mirroring and without overwriting, over matched
    paths that are regular files that open, against a service whose creates
    succeed, returns normally and makes exactly one call per matched file,
    in the order of the glob: a create with the resolved name, the
    configured mime type, the root folder as only parent and the content of
    the file. *)
Theorem uploadAll_one_create_per_file :
  forall St (env : Env) (svc : Service St) (cfg : Config)
         (media : string -> string) (w : World St),
    mirrorDirectoryStructureFlag cfg = false ->
    overwriteFlag cfg = false ->
    (forall file,
        In file (files cfg) ->
        file <> "" /\ Lstat env file = inr false
        /\ Open env file = inr (media file)) ->
    (forall f m st, exists d st', create_do svc f m st = inr (d, st')) ->
    fst (uploadAll env svc cfg w) = inr tt
    /\ calls (snd (uploadAll env svc cfg w))
       = (calls w ++ map (plainCreate cfg media) (files cfg))%list.
Proof.
  intros St env svc cfg media w Hmirror Hover Hfiles Hcreate.
  unfold uploadAll.
  exact (filesLoop_plain env svc cfg (folderId cfg) media (files cfg)
           Hmirror Hover Hcreate Hfiles (folderId cfg) w).
Qed.

Lemma uploadAll_one_create_per_file_witness :
  mirrorDirectoryStructureFlag (pairConfig false "p-") = false
  /\ fst (uploadAll plainRunner memdrive.service (pairConfig false "p-")
            (memdrive.start [])) = inr tt
  /\ calls (snd (uploadAll plainRunner memdrive.service (pairConfig false "p-")
                   (memdrive.start [])))
     = [uploadCall None "R" "p-a.txt" "" "data";
        uploadCall None "R" "p-b.txt" "" "data"].
Proof.
  split; [reflexivity|].
  apply (uploadAll_one_create_per_file memdrive.St plainRunner memdrive.service
           (pairConfig false "p-") (fun _ => "data") (memdrive.start [])
           eq_refl eq_refl).
  - intros file [<-|[<-|[]]]; repeat split; discriminate.
  - intros f m st. eexists _, _. reflexivity.
Defined.


(** X18: with mirroring off, every call a run makes is a lookup or an
    upload into the configured root folder: each create carries content and
    has the root as only parent, each update adds the root as parent, and no
    folder is ever created. *)
Theorem uploadAll_without_mirror_targets_root :
  forall St (env : Env) (svc : Service St) (cfg : Config) (w : World St),
    mirrorDirectoryStructureFlag cfg = false ->
    exists cs,
      calls (snd (uploadAll env svc cfg w)) = (calls w ++ cs)%list
      /\ Forall (aimedAt (folderId cfg)) cs.
Proof.
  intros St env svc cfg w Hflag. unfold uploadAll.
  exact (filesLoop_aimed env svc cfg (folderId cfg) (files cfg) Hflag
           (folderId cfg) w).
Qed.

Lemma uploadAll_without_mirror_targets_root_witness :
  mirrorDirectoryStructureFlag dirConfig = false
  /\ exists cs,
      calls (snd (uploadAll dirRunner memdrive.service dirConfig
                    (memdrive.start [strayFile])))
      = cs
      /\ Forall (aimedAt "R") cs.
Proof.
  split; [reflexivity|].
  exact (uploadAll_without_mirror_targets_root memdrive.St dirRunner
           memdrive.service dirConfig (memdrive.start [strayFile]) eq_refl).
Defined.

(** ** Clean relative paths *)

Lemma joinPath_cons (seg : string) (r : string) (rs : list string) :
  joinPath (seg :: r :: rs)
  = seg ++ String filepath.Separator (joinPath (r :: rs)).
Proof. reflexivity. Qed.

Lemma joinPath_snoc (segs : list string) (file : string) :
  segs <> [] ->
  joinPath (segs ++ [file])
  = joinPath segs ++ String filepath.Separator file.
Proof.
  induction segs as [|seg segs IH]; intros Hne; [contradiction|].
  destruct segs as [|r rs]; [reflexivity|].
  change ((seg :: r :: rs) ++ [file])%list with (seg :: (r :: rs) ++ [file])%list.
  change ((r :: rs) ++ [file])%list with (r :: (rs ++ [file]))%list.
  rewrite joinPath_cons.
  change (r :: (rs ++ [file]))%list with ((r :: rs) ++ [file])%list.
  rewrite IH by discriminate.
  rewrite joinPath_cons, append_assoc. reflexivity.
Qed.

Lemma splitFrom_element (seg : string) :
  noSeparator seg ->
  forall cur s,
    strings.splitFrom filepath.Separator cur (seg ++ s)
    = strings.splitFrom filepath.Separator (cur ++ seg) s.
Proof.
  induction seg as [|c seg IH]; intros Hno cur s; simpl.
  - now rewrite append_nil_r.
  - apply noSeparator_cons in Hno as [Hc Hno].
    unfold filepath.IsPathSeparator in Hc. rewrite Hc.
    rewrite (IH Hno), append_assoc. reflexivity.
Qed.

(** [Split] undoes [joinPath] on segments without separator. *)
Lemma Split_joinPath (segs : list string) :
  segs <> [] ->
  Forall noSeparator segs ->
  strings.Split (joinPath segs) filepath.Separator = segs.
Proof.
  unfold strings.Split.
  induction segs as [|seg segs IH]; intros Hne Hall; [contradiction|].
  apply Forall_cons_iff in Hall as [Hseg Hall].
  destruct segs as [|r rs].
  - change (joinPath [seg]) with seg.
    rewrite <- (append_nil_r seg) at 1.
    now rewrite (splitFrom_element seg Hseg).
  - rewrite joinPath_cons, (splitFrom_element seg Hseg).
    cbn [strings.splitFrom append].
    change (Ascii.eqb filepath.Separator filepath.Separator) with true.
    cbv iota. f_equal. apply IH; [discriminate | exact Hall].
Qed.

Lemma get_append_r (a s : string) (k : nat) :
  String.get (String.length a + k) (a ++ s) = String.get k s.
Proof. induction a as [|c a IH]; simpl; [reflexivity | exact IH]. Qed.

(** In [a/b] with no separator in [b], the backward scan stops right after
    the separator. *)
Lemma scanBack_last_separator (a b : string) :
  noSeparator b ->
  forall j, j <= String.length b ->
    filepath.scanBack (a ++ String filepath.Separator b)
                      (String.length a + 1 + j)
    = String.length a + 1.
Proof.
  intros Hno. induction j as [|j IH]; intros Hj.
  - rewrite Nat.add_0_r, Nat.add_1_r. simpl.
    unfold filepath.sepAt.
    rewrite <- (Nat.add_0_r (String.length a)) at 1.
    rewrite get_append_r. simpl. reflexivity.
  - replace (String.length a + 1 + S j) with (S (String.length a + 1 + j))
      by lia.
    simpl. unfold filepath.sepAt.
    replace (String.length a + 1 + j) with (String.length a + S j) by lia.
    rewrite get_append_r. simpl.
    destruct (String.get j b) as [c|] eqn:Hc.
    + rewrite (Hno j c Hc).
      replace (String.length a + S j) with (String.length a + 1 + j) by lia.
      apply IH. lia.
    + replace (String.length a + S j) with (String.length a + 1 + j) by lia.
      apply IH. lia.
Qed.

Lemma copyElement_element (seg : string) :
  noSeparator seg ->
  forall rest,
    filepath.atEndOrSep rest = true ->
    filepath.copyElement (seg ++ rest) = (seg, rest).
Proof.
  induction seg as [|c seg IH]; intros Hno rest Hrest; simpl.
  - destruct rest as [|d rest]; [reflexivity|].
    simpl in Hrest. simpl. now rewrite Hrest.
  - apply noSeparator_cons in Hno as [Hc Hno].
    rewrite Hc, (IH Hno rest Hrest). reflexivity.
Qed.

Lemma atEndOrSep_element (seg rest : string) (c : ascii) :
  noSeparator (String c seg) ->
  filepath.atEndOrSep (String c seg ++ rest) = false.
Proof.
  intros Hno. apply noSeparator_cons in Hno as [Hc _]. exact Hc.
Qed.

(** One turn of the loop of [Clean] on a plain element. *)
Lemma cleanLoop_element (seg rest buf : string) (fuel dotdot : nat) :
  plainSegment seg ->
  filepath.atEndOrSep rest = true ->
  filepath.cleanLoop (S fuel) false (seg ++ rest) buf dotdot
  = filepath.cleanLoop fuel false rest (withElement buf seg) dotdot.
Proof.
  intros (Hne & Hno & Hdot & Hdotdot) Hrest.
  pose proof (copyElement_element seg Hno rest Hrest) as Hcopy.
  destruct seg as [|c seg]; [contradiction|].
  pose proof Hno as Hno'. apply noSeparator_cons in Hno' as [Hc Hseg].
  cbn [filepath.cleanLoop append]. rewrite Hc.
  assert (Ascii.eqb c "." && filepath.atEndOrSep (seg ++ rest) = false) as H1.
  { destruct (Ascii.eqb_spec c "."%char) as [->|_]; [|reflexivity]. simpl.
    destruct seg as [|d seg]; [contradiction|].
    exact (atEndOrSep_element seg rest d Hseg). }
  rewrite H1.
  assert (Ascii.eqb c "."
          && match seg ++ rest with
             | String d r2 => Ascii.eqb d "." && filepath.atEndOrSep r2
             | EmptyString => false
             end = false) as H2.
  { destruct (Ascii.eqb_spec c "."%char) as [->|_]; [|reflexivity]. simpl.
    destruct seg as [|d seg]; [contradiction|]. simpl.
    destruct (Ascii.eqb_spec d "."%char) as [->|_]; [|reflexivity]. simpl.
    destruct seg as [|x seg]; [contradiction|].
    apply noSeparator_cons in Hseg as [_ Hseg].
    exact (atEndOrSep_element seg rest x Hseg). }
  rewrite H2.
  change (String c (seg ++ rest)) with (String c seg ++ rest).
  rewrite Hcopy. unfold withElement. simpl.
  destruct (String.length buf =? 0)%nat eqn:Hb; simpl.
  - apply Nat.eqb_eq in Hb. destruct buf; [reflexivity | discriminate].
  - now rewrite append_assoc.
Qed.

Lemma length_withElement (buf seg : string) :
  seg <> "" -> (String.length (withElement buf seg) =? 0)%nat = false.
Proof.
  intros Hne. unfold withElement.
  destruct (String.length buf =? 0)%nat eqn:Hb.
  - destruct seg; [contradiction | reflexivity].
  - apply Nat.eqb_neq. rewrite !length_append. apply Nat.eqb_neq in Hb. lia.
Qed.

Lemma withElement_join (buf seg rest : string) :
  seg <> "" ->
  withElement (withElement buf seg) rest
  = withElement buf (seg ++ String filepath.Separator rest).
Proof.
  intros Hne. unfold withElement at 1. rewrite (length_withElement buf seg Hne).
  unfold withElement.
  destruct (String.length buf =? 0)%nat; [reflexivity|].
  rewrite !append_assoc. reflexivity.
Qed.

(** [Clean] keeps a path of plain elements as it is, and drops one trailing
    separator. *)
Lemma cleanLoop_plain (segs : list string) :
  segs <> [] ->
  Forall plainSegment segs ->
  forall (tail buf : string) (fuel : nat),
    tail = "" \/ tail = String filepath.Separator "" ->
    String.length (joinPath segs ++ tail) <= fuel ->
    filepath.cleanLoop fuel false (joinPath segs ++ tail) buf 0
    = withElement buf (joinPath segs).
Proof.
  induction segs as [|seg segs IH]; intros Hne Hall tail buf fuel Htail Hfuel;
    [contradiction|].
  apply Forall_cons_iff in Hall as [Hseg Hall].
  pose proof Hseg as (Hsne & _).
  destruct segs as [|r rs].
  - change (joinPath [seg]) with seg in *.
    rewrite length_append in Hfuel.
    destruct fuel as [|fuel]; [destruct seg; [contradiction|simpl in Hfuel; lia]|].
    rewrite (cleanLoop_element seg tail buf fuel 0 Hseg)
      by (destruct Htail as [->| ->]; reflexivity).
    destruct Htail as [->| ->].
    + now destruct fuel.
    + destruct fuel as [|fuel];
        [destruct seg; [contradiction|simpl in Hfuel; lia]|].
      simpl. now destruct fuel.
  - rewrite joinPath_cons in *.
    rewrite append_assoc in *.
    rewrite length_append in Hfuel.
    destruct fuel as [|fuel]; [destruct seg; [contradiction|simpl in Hfuel; lia]|].
    rewrite (cleanLoop_element seg _ buf fuel 0 Hseg) by reflexivity.
    change (String filepath.Separator (joinPath (r :: rs)) ++ tail)
      with (String filepath.Separator (joinPath (r :: rs) ++ tail)) in *.
    destruct fuel as [|fuel];
      [destruct seg; [contradiction|simpl in Hfuel; lia]|].
    cbn [filepath.cleanLoop].
    change (filepath.IsPathSeparator filepath.Separator) with true. cbv iota.
    rewrite (IH ltac:(discriminate) Hall tail (withElement buf seg) fuel Htail)
      by (destruct seg; [contradiction | simpl in Hfuel; lia]).
    apply withElement_join. exact Hsne.
Qed.

Lemma Clean_plain (segs : list string) (tail : string) :
  segs <> [] ->
  Forall plainSegment segs ->
  tail = "" \/ tail = String filepath.Separator "" ->
  filepath.Clean (joinPath segs ++ tail) = joinPath segs.
Proof.
  intros Hne Hall Htail.
  pose proof (cleanLoop_plain segs Hne Hall tail "" _ Htail (Nat.le_refl _))
    as Hloop.
  destruct segs as [|seg segs]; [contradiction|].
  pose proof (proj1 (Forall_cons_iff _ _ _) Hall) as [(Hsne & Hno & _) _].
  assert (exists c p, joinPath (seg :: segs) = String c p
                      /\ filepath.IsPathSeparator c = false) as (c & p & Hp & Hc).
  { destruct seg as [|c seg]; [contradiction|].
    apply noSeparator_cons in Hno as [Hc _].
    destruct segs as [|r rs]; [now exists c, seg|].
    rewrite joinPath_cons. simpl. now eexists c, _. }
  rewrite Hp in *. unfold filepath.Clean.
  cbn [append] in Hloop |- *. cbv beta iota zeta.
  rewrite Hc, Hloop. reflexivity.
Qed.

(** The directory of a clean relative path is the path of its directory
    names. *)
Lemma Dir_plain (segs : list string) (file : string) :
  segs <> [] ->
  Forall plainSegment segs ->
  noSeparator file ->
  filepath.Dir (joinPath (segs ++ [file])) = joinPath segs.
Proof.
  intros Hne Hall Hfile. unfold filepath.Dir.
  rewrite (joinPath_snoc segs file Hne).
  pose proof (scanBack_last_separator (joinPath segs) file Hfile
                (String.length file) (Nat.le_refl _)) as Hscan.
  rewrite length_append. simpl String.length.
  replace (String.length (joinPath segs) + S (String.length file))
    with (String.length (joinPath segs) + 1 + String.length file) by lia.
  rewrite Hscan.
  replace (joinPath segs ++ String filepath.Separator file)
    with ((joinPath segs ++ String filepath.Separator "") ++ file)
    by (now rewrite append_assoc).
  replace (String.length (joinPath segs) + 1)
    with (String.length (joinPath segs ++ String filepath.Separator ""))
    by (rewrite length_append; reflexivity).
  rewrite substring_app_l.
  apply Clean_plain; auto.
Qed.

(** X19: with mirroring on, for a clean relative path (a non-empty chain of
    directory names, none empty, [.] or [..], followed by a file name), the
    mirror runs one step per directory name, in the order of the path and
    starting from the root, and nothing else. *)
Theorem mirrorFile_clean_path :
  forall St (svc : Service St) (cfg : Config) (segs : list string)
         (file R : string) (w : World St),
    mirrorDirectoryStructureFlag cfg = true ->
    segs <> [] ->
    Forall plainSegment segs ->
    noSeparator file ->
    mirrorFile svc cfg (joinPath (segs ++ [file])) R w
    = (say (OutMirroring segs) ;; mirrorLoop svc segs R) w.
Proof.
  intros St svc cfg segs file R w Hflag Hne Hall Hfile.
  unfold mirrorFile. rewrite Hflag, (Dir_plain segs file Hne Hall Hfile).
  rewrite (Split_joinPath segs Hne); [reflexivity|].
  apply Forall_impl with (2 := Hall). now intros seg (_ & Hno & _).
Qed.

Ltac no_separator :=
  repeat (apply noSeparator_cons; split; [reflexivity|]); apply noSeparator_nil.

Lemma plainSegment_logs : plainSegment "logs".
Proof. repeat split; try discriminate. no_separator. Qed.

Lemma plainSegment_2024 : plainSegment "2024".
Proof. repeat split; try discriminate. no_separator. Qed.

Lemma noSeparator_run_txt : noSeparator "run.txt".
Proof. no_separator. Qed.

(** For [logs/2024/run.txt] on a service without folders: lookup and create
    of [logs] under [R], then of [2024] under the new [logs]. *)
Lemma mirrorFile_clean_path_witness :
  mirrorDirectoryStructureFlag (mirrorConfig ["logs/2024/run.txt"]) = true
  /\ calls (snd (mirrorFile memdrive.service (mirrorConfig ["logs/2024/run.txt"])
                   "logs/2024/run.txt" "R" (memdrive.start [])))
     = [FilesList (folderQuery "logs"); FilesCreate (newFolder "R" "logs") None;
        FilesList (folderQuery "2024"); FilesCreate (newFolder "new" "2024") None].
Proof.
  split; [reflexivity|].
  change "logs/2024/run.txt" with (joinPath (["logs"; "2024"] ++ ["run.txt"])).
  rewrite (mirrorFile_clean_path memdrive.St memdrive.service
             (mirrorConfig [joinPath (["logs"; "2024"] ++ ["run.txt"])])
             ["logs"; "2024"] "run.txt" "R" (memdrive.start []) eq_refl
             ltac:(discriminate)
             (Forall_cons _ plainSegment_logs
                (Forall_cons _ plainSegment_2024 (Forall_nil _)))
             noSeparator_run_txt).
  reflexivity.
Defined.

(** ** Absolute paths *)

Lemma backtrack_ge (buf : string) (dotdot : nat) :
  forall w, dotdot <= w -> dotdot <= filepath.backtrack buf dotdot w.
Proof.
  induction w as [|w IH]; intros Hle; simpl; [lia|].
  destruct (Nat.ltb_spec dotdot (S w)); simpl; [|lia].
  destruct (negb (filepath.sepAt buf (S w))); [apply IH; lia | lia].
Qed.

Lemma rooted_substring (buf : string) (w : nat) :
  rooted buf -> 1 <= w -> rooted (substring 0 w buf).
Proof.
  intros [t ->] Hw. destruct w as [|w]; [lia|].
  simpl. now eexists.
Qed.

Lemma rooted_append (buf s : string) : rooted buf -> rooted (buf ++ s).
Proof. intros [t ->]. simpl. now eexists. Qed.

Lemma rooted_length (buf : string) : rooted buf -> 1 <= String.length buf.
Proof. intros [t ->]. simpl. lia. Qed.

(** On a rooted path the buffer of [Clean] keeps its leading separator. *)
Lemma cleanLoop_rooted (fuel : nat) :
  forall rest buf,
    rooted buf -> rooted (filepath.cleanLoop fuel true rest buf 1).
Proof.
  induction fuel as [|fuel IH]; intros rest buf Hbuf; [exact Hbuf|].
  destruct rest as [|c r1]; [exact Hbuf|].
  cbn [filepath.cleanLoop].
  destruct (filepath.IsPathSeparator c); [now apply IH|].
  destruct (Ascii.eqb c "." && filepath.atEndOrSep r1); [now apply IH|].
  match goal with
  | |- rooted (if ?b then _ else _) => destruct b
  end.
  - destruct (Nat.ltb_spec 1 (String.length buf)) as [Hlt|Hge].
    + apply IH. apply rooted_substring; [exact Hbuf|].
      apply backtrack_ge. lia.
    + cbn [negb]. now apply IH.
  - destruct (filepath.copyElement (String c r1)) as [e r].
    apply IH. apply rooted_append.
    match goal with
    | |- rooted (if ?b then _ else _) =>
        destruct b; [now apply rooted_append | exact Hbuf]
    end.
Qed.

Lemma Clean_rooted (path : string) : rooted path -> rooted (filepath.Clean path).
Proof.
  intros [t ->]. unfold filepath.Clean.
  change (filepath.IsPathSeparator filepath.Separator) with true.
  cbv beta iota zeta.
  pose proof (cleanLoop_rooted (String.length (String filepath.Separator t))
                (substring 1 (String.length (String filepath.Separator t) - 1)
                           (String filepath.Separator t))
                (String filepath.Separator "")
                (ex_intro _ "" eq_refl)) as Hloop.
  destruct Hloop as [b Hb]. rewrite Hb. simpl. now eexists.
Qed.

Lemma scanBack_ge (path : string) (i : nat) :
  filepath.sepAt path i = true ->
  forall n, i < n -> i < filepath.scanBack path n.
Proof.
  intros Hi. induction n as [|m IH]; intros Hlt; [lia|].
  simpl. destruct (filepath.sepAt path m) eqn:Hm; [lia|].
  destruct (Nat.eq_dec i m) as [->|Hne]; [congruence|].
  apply IH. lia.
Qed.

Lemma Dir_rooted (path : string) : rooted path -> rooted (filepath.Dir path).
Proof.
  intros [t ->]. unfold filepath.Dir. apply Clean_rooted.
  apply rooted_substring; [now eexists|].
  pose proof (scanBack_ge (String filepath.Separator t) 0 eq_refl
                (String.length (String filepath.Separator t))) as H.
  simpl String.length in *. lia.
Qed.

(** X20: with mirroring on, the turn of a matched path that begins with
    the separator (an absolute path) starts its mirror with a step for the
    EMPTY folder name under the root: the directory of such a path begins
    with the separator, so its first segment is the empty string. *)
Theorem mirrorFile_rooted_path :
  forall St (svc : Service St) (cfg : Config) (file R : string),
    mirrorDirectoryStructureFlag cfg = true ->
    rooted file ->
    exists rest,
      forall w : World St,
        mirrorFile svc cfg file R w
        = (say (OutMirroring ("" :: rest)) ;;
           id <- createDriveDirectory svc R "" ;;
           mirrorLoop svc rest id) w.
Proof.
  intros St svc cfg file R Hflag Hroot.
  destruct (Dir_rooted file Hroot) as [t Ht].
  exists (strings.splitFrom filepath.Separator "" t). intros w.
  unfold mirrorFile. rewrite Hflag, Ht. reflexivity.
Qed.

(** For [/srv/out/a.txt] on a service without folders the first folder
    created under [R] has the empty name. *)
Lemma mirrorFile_rooted_path_witness :
  rooted "/srv/out/a.txt"
  /\ calls (snd (mirrorFile memdrive.service (mirrorConfig ["/srv/out/a.txt"])
                   "/srv/out/a.txt" "R" (memdrive.start [])))
     = [FilesList (folderQuery ""); FilesCreate (newFolder "R" "") None;
        FilesList (folderQuery "srv"); FilesCreate (newFolder "new" "srv") None;
        FilesList (folderQuery "out"); FilesCreate (newFolder "new+" "out") None].
Proof.
  split; [now eexists|].
  destruct (mirrorFile_rooted_path memdrive.St memdrive.service
              (mirrorConfig ["/srv/out/a.txt"]) "/srv/out/a.txt" "R" eq_refl
              (ex_intro _ "srv/out/a.txt" eq_refl)) as [rest Hrest].
  reflexivity.
Defined.

(** ** The folder a turn uploads into *)


